(** * Border-Books: [Book] and [BookList] (src/BookList.cpp)

  A shallow embedding of the translation unit BookList.cpp.  The program is
  written against the C++ standard stream library; the parts of it that the
  code calls (formatted extraction of [char], [std::string], [double],
  [std::quoted], and insertion of [double]) are modelled first, following
  the GNU implementation (libstdc++) in the classic C locale.  The
  functions of BookList.cpp come after, one definition per function
  ([operator<<] on a BookList, which only writes, is left out). *)

From Stdlib Require Import ZArith NArith Lia List Bool Ascii String.
From Stdlib Require Import PrimFloat SpecFloat FloatOps FloatAxioms.
From Stdlib Require Import DecimalString.
Import ListNotations.

Open Scope bool_scope.

(* ================================================================== *)
(** * Characters and strings *)
(* ================================================================== *)

Module Chars.

(** The characters the program and the stream library name. *)
Definition dquote    : ascii := Eval cbv in ascii_of_nat 34.  (* delimiter *)
Definition backslash : ascii := Eval cbv in ascii_of_nat 92.  (* escape *)
Definition comma     : ascii := ","%char.
Definition space     : ascii := " "%char.
Definition newline   : ascii := Eval cbv in ascii_of_nat 10.
Definition nul       : ascii := Eval cbv in ascii_of_nat 0.

(** [std::isspace] in the C locale: space, tab, line feed, vertical tab,
    form feed, carriage return. *)
Definition isspace (c : ascii) : bool :=
  let n := N_of_ascii c in
  (n =? 32)%N || ((9 <=? n)%N && (n <=? 13)%N).

(** Decimal digits. *)
Definition isdigit (c : ascii) : bool :=
  let n := N_of_ascii c in
  ((48 <=? n)%N && (n <=? 57)%N).

Definition digit_val (c : ascii) : Z := Z.of_N (N_of_ascii c) - 48.

Definition digit_char (d : Z) : ascii := ascii_of_N (Z.to_N (d + 48)).

End Chars.
Import Chars.

(** [s +: c] is [s += c] on a [std::string]. *)
Definition push_back (s : string) (c : ascii) : string :=
  (s ++ String c EmptyString)%string.

Notation "s +: c" := (push_back s c) (at level 60, right associativity).

(** The string made of one character. *)
Definition str1 (c : ascii) : string := String c EmptyString.

Definition is_empty (s : string) : bool :=
  match s with EmptyString => true | String _ _ => false end.

(* ================================================================== *)
(** * Input streams *)
(* ================================================================== *)

(** A [std::istream] over a finite character sequence: the characters not
  yet extracted, the two state bits the code can observe, and the
  [skipws] format flag.  [badbit] is never raised by a stream that reads
  from memory or from a readable file and is not modelled. *)
Record istream : Type := mkIstream {
  rdbuf   : string;   (* characters still to be read *)
  eofbit  : bool;
  failbit : bool;
  skipws  : bool
}.

Module Stream.

(** A freshly opened stream over [text]. *)
Definition of_string (text : string) : istream :=
  mkIstream text false false true.

(** [is.good()]. *)
Definition good (st : istream) : bool :=
  negb (eofbit st) && negb (failbit st).

(** [is.fail()] and [explicit operator bool]: [!fail()]. *)
Definition fail (st : istream) : bool := failbit st.
Definition to_bool (st : istream) : bool := negb (fail st).

Definition with_buf (st : istream) (b : string) : istream :=
  mkIstream b (eofbit st) (failbit st) (skipws st).

Definition with_skipws (st : istream) (f : bool) : istream :=
  mkIstream (rdbuf st) (eofbit st) (failbit st) f.

(** [is.setstate(bits)]: the bits are or-ed into the state. *)
Definition setstate (eof fl : bool) (st : istream) : istream :=
  mkIstream (rdbuf st) (eofbit st || eof) (failbit st || fl) (skipws st).

(** Discard leading white space. *)
Fixpoint skip_space (s : string) : string :=
  match s with
  | EmptyString => EmptyString
  | String c s' => if isspace c then skip_space s' else s
  end.

(** [istream::sentry(is, noskip)].  On a stream that is not good it
    raises [failbit].  Otherwise, unless [noskip] or the [skipws] flag is
    off, it discards white space, and raises [eofbit|failbit] when the
    input ends there.  The boolean is the sentry's [operator bool]. *)
Definition sentry (noskip : bool) (st : istream) : istream * bool :=
  if good st then
    if negb noskip && skipws st then
      match skip_space (rdbuf st) with
      | EmptyString => (setstate true true (with_buf st EmptyString), false)
      | String _ _ as rest => (with_buf st rest, true)
      end
    else (st, true)
  else (setstate false true st, false).

(** [is >> c] for a [char]: one character after the sentry; at the end of
    the input [eofbit|failbit] and [c] keeps its value. *)
Definition get_char (st : istream) (c : ascii) : istream * ascii :=
  let (st1, ok) := sentry false st in
  if ok then
    match rdbuf st1 with
    | String x rest => (with_buf st1 rest, x)
    | EmptyString   => (setstate true true st1, c)
    end
  else (st1, c).

(** [is.unget()], called with the character last extracted: clears
    [eofbit], and puts the character back when the stream is good. *)
Definition unget (last : ascii) (st : istream) : istream :=
  let st0 := mkIstream (rdbuf st) false (failbit st) (skipws st) in
  let (st1, ok) := sentry true st0 in
  if ok then with_buf st1 (String last (rdbuf st1)) else st1.

(** The characters up to the next white space, and what follows. *)
Fixpoint take_word (s : string) : string * string :=
  match s with
  | EmptyString => (EmptyString, EmptyString)
  | String c s' =>
      if isspace c then (EmptyString, s)
      else let (w, rest) := take_word s' in (String c w, rest)
  end.

(** [is >> str] for a [std::string] (field width 0): after the sentry the
    string is erased and filled up to the next white space; [eofbit] when
    the input ends, [failbit] when nothing was extracted. *)
Definition get_string (st : istream) (str : string) : istream * string :=
  let (st1, ok) := sentry false st in
  if ok then
    let (w, rest) := take_word (rdbuf st1) in
    (setstate (is_empty rest) (is_empty w) (with_buf st1 rest), w)
  else (setstate false true st1, str).

(** The loop of [operator>>] for [std::quoted], run with [skipws] off on
    a good stream: [is >> c] takes the next character whatever it is; the
    escape makes the character after it literal; an unescaped delimiter
    ends the loop.  [None] is the end of the input inside the quotes
    ([eofbit|failbit]). *)
Fixpoint quoted_scan (buf : string) (str : string) : string * option string :=
  match buf with
  | EmptyString => (str, None)
  | String c rest =>
      if (c =? backslash)%char then
        match rest with
        | EmptyString => (str, None)
        | String c2 rest2 => quoted_scan rest2 (str +: c2)
        end
      else if (c =? dquote)%char then (str, Some rest)
      else quoted_scan rest (str +: c)
  end.

(** [is >> std::quoted(str)] with the default delimiter and escape. *)
Definition get_quoted (st : istream) (str : string) : istream * string :=
  let (st1, c) := get_char st nul in
  if negb (good st1) then (st1, str)
  else if negb (c =? dquote)%char then
    get_string (unget c st1) str
  else
    let flags := skipws st1 in
    let st2 := with_skipws st1 false in
    let (str', r) := quoted_scan (rdbuf st2) EmptyString in
    let st3 := match r with
               | Some rest => with_buf st2 rest
               | None => setstate true true (with_buf st2 EmptyString)
               end in
    (with_skipws st3 (skipws st3 || flags), str').

End Stream.

(* ================================================================== *)
(** * Output of quoted strings *)
(* ================================================================== *)

Module Quoted.

(** The body of [os << std::quoted(s)]: the escape is written before
    every delimiter and every escape character of [s]. *)
Fixpoint escape (s : string) : string :=
  match s with
  | EmptyString => EmptyString
  | String c s' =>
      if (c =? dquote)%char || (c =? backslash)%char
      then String backslash (String c (escape s'))
      else String c (escape s')
  end.

(** [os << std::quoted(s)]. *)
Definition put (s : string) : string :=
  String dquote (escape s ++ str1 dquote).

End Quoted.

(* ================================================================== *)
(** * Floating-point extraction and insertion *)
(* ================================================================== *)

(** [double] is IEEE binary64, here Rocq's primitive [float].  The stream
    library reads a number in two stages: [_M_extract_float] copies the
    characters that can belong to a number into a scratch string, and
    [__convert_to_v] hands that string to [strtod].  It writes a number as
    [printf] with the format %.6g does (default flags, default precision 6). *)
Module Num.

Definition is_sign (c : ascii) : bool := (c =? "+")%char || (c =? "-")%char.

(** Stage 1: an optional sign. *)
Definition extract_sign (s : string) : string * string :=
  match s with
  | String c rest => if is_sign c then (str1 c, rest) else (EmptyString, s)
  | EmptyString => (EmptyString, s)
  end.

(** Stage 2: leading zeros; only the first one is copied. *)
Fixpoint extract_zeros (s : string) (found_mantissa : bool) : bool * string :=
  match s with
  | String c rest =>
      if (c =? "0")%char then extract_zeros rest true else (found_mantissa, s)
  | EmptyString => (found_mantissa, s)
  end.

(** Stage 3: digits, at most one decimal point (not after the exponent
    mark), at most one exponent mark (only after a digit) with its optional
    sign.  Returns the scratch string and the unread input. *)
Fixpoint extract_digits (s xtrc : string)
         (found_mantissa found_dec found_sci : bool) : string * string :=
  match s with
  | EmptyString => (xtrc, EmptyString)
  | String c rest =>
      if isdigit c then
        extract_digits rest (xtrc +: c) true found_dec found_sci
      else if (c =? ".")%char && negb found_dec && negb found_sci then
        extract_digits rest (xtrc +: "."%char) found_mantissa true found_sci
      else if ((c =? "e")%char || (c =? "E")%char)
              && negb found_sci && found_mantissa then
        match rest with
        | EmptyString => (xtrc +: "e"%char, EmptyString)
        | String c2 rest2 =>
            if is_sign c2
            then extract_digits rest2 ((xtrc +: "e"%char) +: c2)
                                found_mantissa found_dec true
            else extract_digits rest (xtrc +: "e"%char)
                                found_mantissa found_dec true
        end
      else (xtrc, s)
  end.

(** [num_get::_M_extract_float] in the C locale (no digit grouping). *)
Definition extract_float (s : string) : string * string :=
  let (sg, s1) := extract_sign s in
  let (fm, s2) := extract_zeros s1 false in
  extract_digits s2 (if fm then sg +: "0"%char else sg) fm false false.

(** ** [strtod] on decimal text *)

(** The longest prefix of digits, and what follows. *)
Fixpoint take_digits (s : string) : string * string :=
  match s with
  | EmptyString => (EmptyString, EmptyString)
  | String c s' =>
      if isdigit c
      then let (d, rest) := take_digits s' in (String c d, rest)
      else (EmptyString, s)
  end.

(** The number a digit string denotes, most significant digit first. *)
Fixpoint digits_value (ds : string) (acc : Z) : Z :=
  match ds with
  | EmptyString => acc
  | String c ds' => digits_value ds' (10 * acc + digit_val c)%Z
  end.

(** A decimal numeral: [(-1)^neg * mant * 10^exp10]. *)
Record decimal : Type := mkDecimal { neg : bool; mant : Z; exp10 : Z }.

(** The exponent part [e], optional sign, at least one digit; when it is
    not complete [strtod] does not consume it. *)
Definition strtod_exponent (s : string) : Z * string :=
  match s with
  | String c rest =>
      if (c =? "e")%char || (c =? "E")%char then
        let (sg, r1) := extract_sign rest in
        let (ds, r2) := take_digits r1 in
        if is_empty ds then (0%Z, s)
        else ((if (sg =? "-")%string then - digits_value ds 0 else digits_value ds 0)%Z, r2)
      else (0%Z, s)
  | EmptyString => (0%Z, s)
  end.

(** The subject sequence of [strtod] for decimal input and the position
    where it ends; [None] when no conversion can be performed. *)
Definition strtod_scan (s : string) : option (decimal * string) :=
  let (sg, s1) := extract_sign s in
  let (ip, s2) := take_digits s1 in
  let (fp, s3) := match s2 with
                  | String c r => if (c =? ".")%char then take_digits r
                                  else (EmptyString, s2)
                  | EmptyString => (EmptyString, s2)
                  end in
  if is_empty ip && is_empty fp then None
  else
    let (e, s4) := strtod_exponent s3 in
    Some (mkDecimal (sg =? "-")%string
                    (digits_value (ip ++ fp) 0)
                    (e - Z.of_nat (String.length fp)),
          s4).

(** Binary64: 53 bits of precision, exponents below 1024. *)
Definition normalize64 (m e : Z) : spec_float :=
  binary_normalize prec emax m e false.

(** The binary64 number nearest to [m * 10^e] for [m > 0], ties to even.
    For a negative [e] the quotient is taken with more than 64 bits and a
    sticky bit for the remainder, which decides the rounding exactly. *)
Definition round_decimal (sgn : bool) (m e : Z) : spec_float :=
  let sg (x : Z) := if sgn then (- x)%Z else x in
  if (0 <=? e)%Z then normalize64 (sg (m * 10 ^ e)%Z) 0
  else
    let den := (10 ^ (- e))%Z in
    let s := (64 + Z.log2_up den)%Z in
    let n := (m * 2 ^ s)%Z in
    let q := (n / den)%Z in
    let sticky := if (n mod den =? 0)%Z then 0%Z else 1%Z in
    normalize64 (sg (2 * q + sticky)%Z) (- s - 1).

Definition decimal_to_double (d : decimal) : float :=
  if (mant d =? 0)%Z then (if neg d then neg_zero else zero)
  else SF2Prim (round_decimal (neg d) (mant d) (exp10 d)).

(** [numeric_limits<double>::max()]. *)
Definition DBL_MAX : float := 0x1.fffffffffffffp+1023%float.

(** [__convert_to_v(xtrc, v, err)]: the value and whether [err] is
    [failbit].  The scratch string must be consumed whole; an overflow
    gives the largest finite value with [failbit]. *)
Definition convert_to_v (xtrc : string) : float * bool :=
  match strtod_scan xtrc with
  | None => (zero, true)
  | Some (d, rest) =>
      if negb (is_empty rest) then (zero, true)
      else
        let v := decimal_to_double d in
        if (v =? infinity)%float then (DBL_MAX, true)
        else if (v =? neg_infinity)%float then ((- DBL_MAX)%float, true)
        else (v, false)
  end.

(** [is >> v] for a [double]. *)
Definition get_double (st : istream) (v : float) : istream * float :=
  let (st1, ok) := Stream.sentry false st in
  if ok then
    let (xtrc, rest) := extract_float (rdbuf st1) in
    let (v', failed) := convert_to_v xtrc in
    (Stream.setstate (is_empty rest) failed (Stream.with_buf st1 rest), v')
  else (st1, v).

End Num.

(** ** Insertion of a [double]: [printf] with the format %.6g *)
Module Fmt.

(** The default precision of a stream. *)
Definition precision : Z := 6.

(** [10^X <= num/den], for positive [num] and [den]. *)
Definition pow10_le (X num den : Z) : bool :=
  if (0 <=? X)%Z then (10 ^ X * den <=? num)%Z
  else (den <=? num * 10 ^ (- X))%Z.

(** The largest [X] with [10^X <= num/den], searched downward. *)
Fixpoint floor_log10 (fuel : nat) (X num den : Z) : Z :=
  match fuel with
  | O => X
  | S f => if pow10_le X num den then X
           else floor_log10 f (X - 1)%Z num den
  end.

(** Every finite positive binary64 lies between 10^-324 and 10^309. *)
Definition exponent10 (num den : Z) : Z := floor_log10 800 400%Z num den.

(** [num/den] rounded to the nearest integer, ties to even. *)
Definition round_half_even (num den : Z) : Z :=
  let q := (num / den)%Z in
  let r := (num mod den)%Z in
  match (2 * r ?= den)%Z with
  | Lt => q
  | Gt => (q + 1)%Z
  | Eq => if Z.even q then q else (q + 1)%Z
  end.

(** The last [n] decimal digits of [r], most significant first. *)
Fixpoint to_digits (n : nat) (r : Z) : string :=
  match n with
  | O => EmptyString
  | S k => to_digits k (r / 10)%Z +: digit_char (r mod 10)%Z
  end.

(** Remove the zeros that end a fraction. *)
Fixpoint strip_zeros (s : string) : string :=
  match s with
  | EmptyString => EmptyString
  | String c r =>
      let r' := strip_zeros r in
      if is_empty r' && (c =? "0")%char then EmptyString else String c r'
  end.

Fixpoint zeros (n : nat) : string :=
  match n with O => EmptyString | S k => String "0"%char (zeros k) end.

(** Split a string after its first [n] characters. *)
Fixpoint split_at (n : nat) (s : string) : string * string :=
  match n, s with
  | S k, String c r => let (a, b) := split_at k r in (String c a, b)
  | _, _ => (EmptyString, s)
  end.

(** An integer part and a fraction, the point only when a fraction is left
    after its trailing zeros are removed (no [#] flag). *)
Definition with_fraction (ip fp : string) : string :=
  let fp' := strip_zeros fp in
  if is_empty fp' then ip else (ip ++ String "."%char fp')%string.

(** The exponent of the [e] style: a sign and at least two digits. *)
Definition exponent_text (X : Z) : string :=
  let a := Z.abs X in
  let ds := if (a <? 10)%Z then to_digits 2 a
            else if (a <? 100)%Z then to_digits 2 a
            else to_digits 3 a in
  String "e"%char (String (if (X <? 0)%Z then "-"%char else "+"%char) ds).

(** [%.6g] of the positive number [num/den]: with [X] the decimal exponent
    after rounding to 6 significant digits, the [f] style when
    [-4 <= X < 6] and the [e] style otherwise. *)
Definition format_g (num den : Z) : string :=
  let P := precision in
  let X0 := exponent10 num den in
  let r0 := if (0 <=? P - 1 - X0)%Z
            then round_half_even (num * 10 ^ (P - 1 - X0)) den
            else round_half_even num (den * 10 ^ (X0 - (P - 1))) in
  let '(r, X) := if (r0 =? 10 ^ P)%Z then ((10 ^ (P - 1))%Z, (X0 + 1)%Z)
                 else (r0, X0) in
  let ds := to_digits (Z.to_nat P) r in
  if ((-4 <=? X)%Z && (X <? P)%Z) then
    if (0 <=? X)%Z then
      let (ip, fp) := split_at (Z.to_nat (X + 1)) ds in with_fraction ip fp
    else
      with_fraction (str1 "0"%char) (zeros (Z.to_nat (- X - 1)) ++ ds)
  else
    let (ip, fp) := split_at 1 ds in
    (with_fraction ip fp ++ exponent_text X)%string.

(** [os << v] for a [double] on a stream with default flags.  Rocq's
    floats have one NaN, written without a sign. *)
Definition put_double (v : float) : string :=
  match Prim2SF v with
  | S754_nan => "nan"
  | S754_infinity s => if s then "-inf" else "inf"
  | S754_zero s => if s then "-0" else "0"
  | S754_finite s m e =>
      let body := if (0 <=? e)%Z then format_g (Zpos m * 2 ^ e) 1
                  else format_g (Zpos m) (2 ^ (- e)) in
      if s then String "-"%char body else body
  end%string.

End Fmt.

(* ================================================================== *)
(** * class Book *)
(* ================================================================== *)

(** [constexpr auto EPSILON = 1.0E-4;] the binary64 nearest to 0.0001. *)
Definition EPSILON : float := 0x1.a36e2eb1c432dp-14%float.

(** Modelled from the spec: the members of [Book] are declared in
    BookList.hpp, which is not among the sources; the spec (section 3) gives
    three strings and a floating-point price, and BookList.cpp names them
    [_isbn], [_title], [_author] and [_price] (a [double]). *)
Record Book : Type := mkBook {
  _isbn   : string;
  _title  : string;
  _author : string;
  _price  : float
}.

(** [Book::Book(title, author, isbn, price)]: the members are initialised
    from the arguments of the same name. *)
Definition Book_new (title author isbn : string) (price : float) : Book :=
  mkBook isbn title author price.

(** Modelled from the spec: BookList.hpp, which declares the default
    arguments of [Book]'s constructor, is not among the sources; the spec
    (section 3) has a default-constructed Book hold empty strings and a zero
    price. *)
Definition default_Book : Book :=
  Eval cbv [Book_new] in Book_new EmptyString EmptyString EmptyString zero.

Definition get_isbn (b : Book) : string := _isbn b.
Definition get_title (b : Book) : string := _title b.
Definition get_author (b : Book) : string := _author b.
Definition get_price (b : Book) : float := _price b.

Definition set_isbn (b : Book) (newIsbn : string) : Book :=
  mkBook newIsbn (_title b) (_author b) (_price b).
Definition set_title (b : Book) (newTitle : string) : Book :=
  mkBook (_isbn b) newTitle (_author b) (_price b).
Definition set_author (b : Book) (newAuthor : string) : Book :=
  mkBook (_isbn b) (_title b) newAuthor (_price b).
Definition set_price (b : Book) (newPrice : float) : Book :=
  mkBook (_isbn b) (_title b) (_author b) newPrice.

(** [std::istream& operator>>(std::istream& stream, Book& book)]:
    the seven extractions fill [workingItem] and [delimiter]; [book] is
    assigned only when the stream converts to [true] afterwards. *)
Definition Book_extract (stream : istream) (book : Book) : istream * Book :=
  let workingItem := default_Book in
  let delimiter := comma in
  let (s1, isbn)       := Stream.get_quoted stream (_isbn workingItem) in
  let (s2, delimiter)  := Stream.get_char s1 delimiter in
  let (s3, title)      := Stream.get_quoted s2 (_title workingItem) in
  let (s4, delimiter)  := Stream.get_char s3 delimiter in
  let (s5, author)     := Stream.get_quoted s4 (_author workingItem) in
  let (s6, delimiter)  := Stream.get_char s5 delimiter in
  let (s7, price)      := Num.get_double s6 (_price workingItem) in
  let workingItem := mkBook isbn title author price in
  if Stream.to_bool s7 then (s7, workingItem) else (s7, book).

(** [std::ostream& operator<<(std::ostream& stream, const Book& book)]:
    the characters written to a stream with default flags. *)
Definition Book_insert (book : Book) : string :=
  let delimiter := ",  "%string in
  (Quoted.put (get_isbn book) ++ delimiter
   ++ Quoted.put (get_title book) ++ delimiter
   ++ Quoted.put (get_author book) ++ delimiter
   ++ Fmt.put_double (get_price book))%string.

(** [bool operator==(const Book& lhs, const Book& rhs)]. *)
Definition Book_eq (lhs rhs : Book) : bool :=
  (_isbn lhs =? _isbn rhs)%string &&
  (_title lhs =? _title rhs)%string &&
  (_author lhs =? _author rhs)%string &&
  (abs (_price lhs - _price rhs) <? EPSILON)%float.

(** [bool operator!=(const Book& lhs, const Book& rhs)]. *)
Definition Book_neq (lhs rhs : Book) : bool := negb (Book_eq lhs rhs).

(* ================================================================== *)
(** * class BookList *)
(* ================================================================== *)

(** [unsigned] is 32 bits wide and [std::size_t] 64 bits; an increment
    wraps around. *)
Definition wrap_unsigned (n : N) : N := (n mod 2 ^ 32)%N.
Definition wrap_size_t (n : N) : N := (n mod 2 ^ 64)%N.

(** Modelled from the spec: the members of [BookList] are declared in
    BookList.hpp, which is not among the sources; the spec (section 3) gives
    a capacity and a size, unsigned integers, and a contiguous storage of
    capacity Book slots.  Both integers are taken as [std::size_t], the type
    of the constructor's argument and of [size()]; [_bookArray] is the array
    the pointer member owns. *)
Record BookList : Type := mkBookList {
  _capacity         : N;
  _bookArray        : list Book;
  _books_array_size : N
}.

(** [a[i]] and [a[i] = b] on the array.  The code indexes below
    [_capacity] only; outside the array (undefined in C++) a read gives a
    default Book and a write is dropped. *)
Definition array_get (a : list Book) (i : N) : Book :=
  nth (N.to_nat i) a default_Book.

Fixpoint list_set (a : list Book) (i : nat) (b : Book) : list Book :=
  match a, i with
  | [], _ => []
  | _ :: t, O => b :: t
  | h :: t, S k => h :: list_set t k b
  end.

Definition array_set (a : list Book) (i : N) (b : Book) : list Book :=
  list_set a (N.to_nat i) b.

(** [BookList::BookList(const std::size_t& newSize)]. *)
Definition BookList_new (newSize : N) : BookList :=
  mkBookList newSize (repeat default_Book (N.to_nat newSize)) 0.

(** [std::size_t BookList::size() const]. *)
Definition size (l : BookList) : N := _books_array_size l.

(** [Book BookList::operator[](std::size_t index) const]. *)
Definition at_index (l : BookList) (index : N) : Book :=
  array_get (_bookArray l) index.

(** The condition of the [if] in [BookList::find]: the four getters
    compared with [==], the price as [double]s. *)
Definition find_match (stored book : Book) : bool :=
  (get_isbn stored =? get_isbn book)%string &&
  (get_title stored =? get_title book)%string &&
  (get_author stored =? get_author book)%string &&
  (get_price stored =? get_price book)%float.

(** The [for] loop of [BookList::find], from index [i]; at most
    [BookListSize - i] iterations are left. *)
Fixpoint find_loop (fuel : nat) (a : list Book) (book : Book)
         (BookListSize i : N) : N :=
  match fuel with
  | O => BookListSize
  | S f =>
      if (i <? BookListSize)%N then
        if find_match (array_get a i) book then i
        else find_loop f a book BookListSize (wrap_size_t (i + 1))
      else BookListSize
  end.

(** [std::size_t BookList::find(const Book& book) const]. *)
Definition find (l : BookList) (book : Book) : N :=
  let BookListSize := size l in
  find_loop (N.to_nat BookListSize) (_bookArray l) book BookListSize 0.

(** The [while] loop of [BookList::operator+=] when [rhs] is another
    object: [rhs] does not change while the loop runs. *)
Fixpoint append_loop (fuel : nat) (capacity : N) (a : list Book) (sz : N)
         (rhs : BookList) (i : N) : list Book * N :=
  match fuel with
  | O => (a, sz)
  | S f =>
      if (sz <? capacity)%N && (i <? size rhs)%N then
        append_loop f capacity (array_set a sz (at_index rhs i))
                    (wrap_size_t (sz + 1)) rhs (wrap_size_t (i + 1))
      else (a, sz)
  end.

(** [BookList& BookList::operator+=(const BookList& rhs)], [rhs] another
    object. *)
Definition plus_assign (l rhs : BookList) : BookList :=
  let (a, sz) := append_loop (N.to_nat (size rhs)) (_capacity l)
                             (_bookArray l) (_books_array_size l) rhs 0 in
  mkBookList (_capacity l) a sz.

(** The same loop when [rhs] is [*this]: [rhs.size()] and [rhs[i]] read
    the members the loop is writing. *)
Fixpoint append_self_loop (fuel : nat) (capacity : N) (a : list Book)
         (sz i : N) : list Book * N :=
  match fuel with
  | O => (a, sz)
  | S f =>
      if (sz <? capacity)%N && (i <? sz)%N then
        append_self_loop f capacity (array_set a sz (array_get a i))
                         (wrap_size_t (sz + 1)) (wrap_size_t (i + 1))
      else (a, sz)
  end.

(** [l += l]. *)
Definition plus_assign_self (l : BookList) : BookList :=
  let (a, sz) := append_self_loop
                   (N.to_nat (_capacity l - _books_array_size l))
                   (_capacity l) (_bookArray l) (_books_array_size l) 0 in
  mkBookList (_capacity l) a sz.

(** The state of [operator>>(std::istream&, BookList&)] between two
    iterations of its loop. *)
Record extract_state : Type := mkExtract {
  x_stream  : istream;
  x_book    : Book;
  x_array   : list Book;
  x_counter : N
}.

Section BulkExtract.

(** What a Book holds after [std::move] took its value: the standard
    leaves the strings of a moved-from object unspecified. *)
Variable moved_from : Book -> Book.

(** The [while] loop of [operator>>(std::istream&, BookList&)].  Every
    iteration that leaves the stream usable consumes input, so the length
    of the input bounds the number of iterations. *)
Fixpoint extract_loop (fuel : nat) (capacity : N) (x : extract_state)
    : extract_state :=
  match fuel with
  | O => x
  | S f =>
      if Stream.to_bool (x_stream x) && (x_counter x <? capacity)%N then
        let (stream', book') := Book_extract (x_stream x) (x_book x) in
        extract_loop f capacity
          (mkExtract stream' (moved_from book')
                     (array_set (x_array x) (x_counter x) book')
                     (wrap_unsigned (x_counter x + 1)))
      else x
  end.

(** The loop started by [operator>>] on [stream] and [bookList]. *)
Definition extract_run (stream : istream) (bookList : BookList)
    : extract_state :=
  extract_loop (S (String.length (rdbuf stream))) (_capacity bookList)
               (mkExtract stream default_Book (_bookArray bookList) 0).

(** [std::istream& operator>>(std::istream& stream, BookList& bookList)]. *)
Definition BookList_extract (stream : istream) (bookList : BookList)
    : istream * BookList :=
  let x := extract_run stream bookList in
  let counter := x_counter x in
  (x_stream x,
   mkBookList (_capacity bookList) (x_array x)
              (if (counter <? _capacity bookList)%N then counter
               else _books_array_size bookList)).

End BulkExtract.

(** The [while] loop of [BookList::readInFile]: the Book is read first,
    then the stream and the capacity are tested. *)
Fixpoint read_loop (fuel : nat) (capacity : N) (inFile : istream)
         (newBook : Book) (a : list Book) (i : N) : list Book * N :=
  match fuel with
  | O => (a, i)
  | S f =>
      let (inFile', newBook') := Book_extract inFile newBook in
      if Stream.to_bool inFile' && (i <? capacity)%N then
        read_loop f capacity inFile' newBook' (array_set a i newBook')
                  (wrap_unsigned (i + 1))
      else (a, i)
  end.

(** [std::ifstream inFile(filename)]: a file that cannot be opened gives a
    stream with [failbit] set. *)
Definition ifstream (file : option string) : istream :=
  match file with
  | Some text => Stream.of_string text
  | None => mkIstream EmptyString false true true
  end.

(** [void BookList::readInFile(const std::string& filename)]; [file] is
    what the file system holds under [filename]. *)
Definition readInFile (file : option string) (l : BookList) : BookList :=
  let inFile := ifstream file in
  let (a, i) := read_loop (S (String.length (rdbuf inFile))) (_capacity l)
                          inFile default_Book (_bookArray l) 0 in
  mkBookList (_capacity l) a i.

(* ================================================================== *)
(** * Vocabulary of the statements *)
(* ================================================================== *)

(** The four field extractions of [Book_extract], each with the stream it
    leaves behind. *)
Record Book_fields : Type := mkFields {
  f_isbn   : istream * string;
  f_title  : istream * string;
  f_author : istream * string;
  f_price  : istream * float
}.

Definition extract_fields (stream : istream) : Book_fields :=
  let r1 := Stream.get_quoted stream EmptyString in
  let s2 := fst (Stream.get_char (fst r1) comma) in
  let r3 := Stream.get_quoted s2 EmptyString in
  let s4 := fst (Stream.get_char (fst r3) comma) in
  let r5 := Stream.get_quoted s4 EmptyString in
  let s6 := fst (Stream.get_char (fst r5) comma) in
  let r7 := Num.get_double s6 zero in
  mkFields r1 r3 r5 r7.

(** A field parsed when the stream has not failed after its extraction. *)
Definition parsed {A : Type} (r : istream * A) : bool :=
  Stream.to_bool (fst r).

Definition all_parsed (f : Book_fields) : bool :=
  parsed (f_isbn f) && parsed (f_title f) && parsed (f_author f)
  && parsed (f_price f).

(** The BookLists a program can build: the constructor, then any of the
    operations that change a list.  [+=] is given once for another list and
    once for the list itself. *)
Inductive reachable : BookList -> Prop :=
  | reach_new (newSize : N) :
      (newSize < 2 ^ 64)%N -> reachable (BookList_new newSize)
  | reach_plus_assign (l rhs : BookList) :
      reachable l -> reachable rhs -> reachable (plus_assign l rhs)
  | reach_plus_assign_self (l : BookList) :
      reachable l -> reachable (plus_assign_self l)
  | reach_extract (moved_from : Book -> Book) (stream : istream) (l : BookList) :
      reachable l -> reachable (snd (BookList_extract moved_from stream l))
  | reach_readInFile (file : option string) (l : BookList) :
      reachable l -> reachable (readInFile file l).

(** The representation invariant: the array has [_capacity] slots, a
    [std::size_t] number, and the logical size does not exceed it. *)
Definition well_formed (l : BookList) : Prop :=
  (_capacity l < 2 ^ 64)%N /\
  List.length (_bookArray l) = N.to_nat (_capacity l) /\
  (_books_array_size l <= _capacity l)%N.

(** The comparison of [BookList::find] as a proposition: the strings are
    the same and the prices compare equal as [double]s. *)
Definition exact_match (stored book : Book) : Prop :=
  _isbn stored = _isbn book /\ _title stored = _title book /\
  _author stored = _author book /\
  (_price stored =? _price book)%float = true.

(** A string of white space only. *)
Fixpoint all_space (w : string) : bool :=
  match w with
  | EmptyString => true
  | String c w' => isspace c && all_space w'
  end.

(** A price whose default rendering reads back as a number within
    [EPSILON] of it. *)
Definition price_survives (p : float) : Prop :=
  let r := Num.get_double (Stream.of_string (Fmt.put_double p)) zero in
  failbit (fst r) = false /\ (abs (snd r - p) <? EPSILON)%float = true.

(** The quoting convention in the words of the spec: a string between
    double quotes, every double quote inside it written twice. *)
Module Spec.

Fixpoint double_quotes (s : string) : string :=
  match s with
  | EmptyString => EmptyString
  | String c s' =>
      if (c =? dquote)%char
      then String dquote (String dquote (double_quotes s'))
      else String c (double_quotes s')
  end.

Definition quoted (s : string) : string :=
  String dquote (double_quotes s ++ str1 dquote).

(** [format(book)] with that convention. *)
Definition format (book : Book) : string :=
  (quoted (_isbn book) ++ ",  " ++ quoted (_title book) ++ ",  "
   ++ quoted (_author book) ++ ",  " ++ Fmt.put_double (_price book))%string.

End Spec.

(** The number of characters a stream still holds. *)
Definition avail (st : istream) : nat := String.length (rdbuf st).

(** The condition of the [while] of [operator>>] on a BookList. *)
Definition extract_continues (capacity : N) (x : extract_state) : bool :=
  Stream.to_bool (x_stream x) && (x_counter x <? capacity)%N.

(** [reads st books st']: the Books [books] parse one after the other from
    the stream [st], which is left as [st']. *)
Inductive reads : istream -> list Book -> istream -> Prop :=
  | reads_nil (st : istream) : reads st [] st
  | reads_cons (st st1 st' : istream) (b : Book) (bs : list Book) :
      (forall target, Book_extract st target = (st1, b)) ->
      Stream.to_bool st1 = true ->
      reads st1 bs st' ->
      reads st (b :: bs) st'.

(** The array after the Books [books] were assigned from index [c] on. *)
Fixpoint store_books (a : list Book) (c : N) (books : list Book) : list Book :=
  match books with
  | [] => a
  | b :: bs => store_books (array_set a c b) (c + 1) bs
  end.

(** The Book variable of the bulk loop after [books] were read into it and
    moved out of it, one by one. *)
Definition book_after (moved_from : Book -> Book) (book : Book)
           (books : list Book) : Book :=
  fold_left (fun _ b => moved_from b) books book.

(** ** Books and texts used as examples *)
Module Examples.

(** [s] between double quotes, as it stands in a well-formed record. *)
Definition q (s : string) : string := String dquote (s ++ str1 dquote).

Definition nl : string := str1 newline.

(** 9.99 and 9.9901 as binary64. *)
Definition price_9_99 : float := 0x1.3fae147ae147bp+3%float.
Definition price_9_9901 : float := 0x1.3faee631f8a09p+3%float.

Definition near1 : Book := mkBook "9789998287532" "Over in the Meadow"
                                  "Ezra Jack Keats" price_9_99.
Definition near2 : Book := mkBook "9789998287532" "Over in the Meadow"
                                  "Ezra Jack Keats" price_9_9901.

(** A file with the two records, and the list of capacity 3 loaded from it. *)
Definition near_text : string :=
  (q "9789998287532" ++ ", " ++ q "Over in the Meadow" ++ ", "
   ++ q "Ezra Jack Keats" ++ ", 9.99" ++ nl
   ++ q "9789998287532" ++ ", " ++ q "Over in the Meadow" ++ ", "
   ++ q "Ezra Jack Keats" ++ ", 9.9901" ++ nl)%string.

Definition near_list : BookList :=
  readInFile (Some near_text) (BookList_new 3).

(** A Book whose isbn is a, a double quote, b. *)
Definition quote_book : Book :=
  mkBook (String "a" (String dquote "b")) "T" "A" one.

(** 91.11 and 1234.56789 as binary64. *)
Definition price_91_11 : float := 0x1.6c70a3d70a3d7p+6%float.
Definition price_1234_56789 : float := 0x1.34a4584f4c6e7p+10%float.

Definition keats : Book :=
  mkBook "9789998287532" "Over in the Meadow" "Ezra Jack Keats" price_91_11.

Definition long_price : Book :=
  mkBook "9789998287532" "Over in the Meadow" "Ezra Jack Keats"
         price_1234_56789.

(** A record whose first comma is missing. *)
Definition no_comma_text : string :=
  (q "i" ++ " " ++ q "t" ++ ", " ++ q "a" ++ ", 9.99")%string.

(** Three well-formed records. *)
Definition record1 : string :=
  (q "111" ++ ", " ++ q "Title One" ++ ", " ++ q "Author A" ++ ", 10.5")%string.
Definition record2 : string :=
  (q "222" ++ ", " ++ q "Title Two" ++ ", " ++ q "Author B" ++ ", 20.25")%string.
Definition record3 : string :=
  (q "333" ++ ", " ++ q "Title Three" ++ ", " ++ q "Author C" ++ ", 30")%string.

Definition book1 : Book := mkBook "111" "Title One" "Author A" 10.5%float.
Definition book2 : Book := mkBook "222" "Title Two" "Author B" 20.25%float.

(** A record whose title has no closing quote. *)
Definition unterminated : string :=
  (q "222" ++ ", " ++ String dquote "Title Two")%string.

Definition three_records : string :=
  (record1 ++ nl ++ record2 ++ nl ++ record3 ++ nl)%string.

Definition second_malformed : string :=
  (record1 ++ nl ++ unterminated)%string.

End Examples.

(** The number of iterations the loop of [operator>>] on a BookList
    completes from the state [x]; the code counts them in the 32-bit
    [counter]. *)
Fixpoint extract_iterations (moved_from : Book -> Book) (fuel : nat)
         (capacity : N) (x : extract_state) : N :=
  match fuel with
  | O => 0%N
  | S f =>
      if extract_continues capacity x then
        let (stream', book') := Book_extract (x_stream x) (x_book x) in
        (1 + extract_iterations moved_from f capacity
               (mkExtract stream' (moved_from book')
                          (array_set (x_array x) (x_counter x) book')
                          (wrap_unsigned (x_counter x + 1))))%N
      else 0%N
  end.

(** The iterations of the loop that [operator>>] starts on [stream] and
    [bookList]. *)
Definition extract_run_iterations (moved_from : Book -> Book)
           (stream : istream) (bookList : BookList) : N :=
  extract_iterations moved_from (S (String.length (rdbuf stream)))
    (_capacity bookList)
    (mkExtract stream default_Book (_bookArray bookList) 0).

(* ================================================================== *)
(** * BookList: writing the list *)
(* ================================================================== *)

(** [os << n] for an [unsigned]: its decimal digits. *)
Definition put_unsigned (n : N) : string :=
  NilZero.string_of_uint (N.to_uint n).

Fixpoint spaces (n : nat) : string :=
  match n with O => EmptyString | S k => String space (spaces k) end.

(** [os << std::setw(w) << s]: a field narrower than [w] is filled with
    spaces on the left; the width applies to this one insertion. *)
Definition setw (w : nat) (s : string) : string :=
  (spaces (w - String.length s) ++ s)%string.

(** What one iteration of the loop of [operator<<] on a BookList writes:
    a new line, the index in a field of width 5, a colon and two spaces,
    and the Book. *)
Definition insert_entry (bookList : BookList) (i : N) : string :=
  (str1 newline ++ setw 5 (put_unsigned i) ++ ":  "
   ++ Book_insert (at_index bookList i))%string.

(** The [for] loop of [operator<<] on a BookList, from index [i]; [i] is an
    [unsigned]. *)
Fixpoint insert_loop (fuel : nat) (bookList : BookList) (i : N) : string :=
  match fuel with
  | O => EmptyString
  | S f =>
      if (i <? _books_array_size bookList)%N then
        (insert_entry bookList i
         ++ insert_loop f bookList (wrap_unsigned (i + 1)))%string
      else EmptyString
  end.

(** [std::ostream& operator<<(std::ostream& stream, const BookList&)]:
    the characters written to a stream with default flags.  The loop ends
    when the size is below 2^32; the index of a larger list would wrap
    around before reaching the size. *)
Definition BookList_insert (bookList : BookList) : string :=
  insert_loop (N.to_nat (_books_array_size bookList)) bookList 0.

(** The entries of the indices [i], [i+1], ... ([n] of them), one after
    the other. *)
Fixpoint insert_entries (bookList : BookList) (i : N) (n : nat) : string :=
  match n with
  | O => EmptyString
  | S k => (insert_entry bookList i
            ++ insert_entries bookList (i + 1) k)%string
  end.

(** A price whose default rendering is read back whole, as the number
    [p']: the extraction takes every character of the text and does not
    fail. *)
Definition price_reads_back (p p' : float) : Prop :=
  Num.get_double (Stream.of_string (Fmt.put_double p)) zero
  = (mkIstream EmptyString true false true, p').

(** The Book that comes back when the text of [book] is parsed: the same
    strings, the price as its rendering reads. *)
Definition reread (book : Book) : Book :=
  mkBook (_isbn book) (_title book) (_author book)
         (snd (Num.get_double
                 (Stream.of_string (Fmt.put_double (_price book))) zero)).

(** A Book that can be written and read back: the rendering of its price
    reads back whole, within [EPSILON] of the price. *)
Definition rereadable (book : Book) : Prop :=
  price_reads_back (_price book) (_price (reread book)) /\
  (abs (_price (reread book) - _price book) <? EPSILON)%float = true.

(** A file written with [os << book << '\n'] for each Book of a list. *)
Fixpoint write_lines (books : list Book) : string :=
  match books with
  | [] => EmptyString
  | b :: bs => (Book_insert b ++ String newline (write_lines bs))%string
  end.

(** The quoting convention of the code in words: [escaped s e] when [e] is
    [s] with a backslash written before every double quote and before
    every backslash, every other character as it is. *)
Inductive escaped : string -> string -> Prop :=
  | escaped_nil : escaped EmptyString EmptyString
  | escaped_quote (s e : string) :
      escaped s e ->
      escaped (String dquote s) (String backslash (String dquote e))
  | escaped_backslash (s e : string) :
      escaped s e ->
      escaped (String backslash s) (String backslash (String backslash e))
  | escaped_plain (c : ascii) (s e : string) :
      c <> dquote -> c <> backslash ->
      escaped s e ->
      escaped (String c s) (String c e).

(** The listing of [Examples.near_list], character by character. *)
Definition near_listing : string :=
  (Examples.nl ++ "    0:  " ++ Examples.q "9789998287532" ++ ",  "
   ++ Examples.q "Over in the Meadow" ++ ",  "
   ++ Examples.q "Ezra Jack Keats" ++ ",  9.99"
   ++ Examples.nl ++ "    1:  " ++ Examples.q "9789998287532" ++ ",  "
   ++ Examples.q "Over in the Meadow" ++ ",  "
   ++ Examples.q "Ezra Jack Keats" ++ ",  9.9901")%string.

(* ================================================================== *)
(** * Facts about strings *)
(* ================================================================== *)

Section StringFacts.

Lemma append_nil_r (s : string) : (s ++ EmptyString)%string = s.
Proof. induction s as [|c s IH]; simpl; [reflexivity | now rewrite IH]. Qed.

Lemma append_assoc (a b c : string) :
  ((a ++ b) ++ c)%string = (a ++ (b ++ c))%string.
Proof. induction a as [|x a IH]; simpl; [reflexivity | now rewrite IH]. Qed.

Lemma length_append (a b : string) :
  String.length (a ++ b) = String.length a + String.length b.
Proof. induction a as [|x a IH]; simpl; [reflexivity | now rewrite IH]. Qed.

Lemma push_back_append (a b : string) (c : ascii) :
  ((a +: c) ++ b)%string = (a ++ String c b)%string.
Proof. unfold push_back. now rewrite append_assoc. Qed.

Lemma is_empty_true (s : string) : is_empty s = true -> s = EmptyString.
Proof. destruct s; [reflexivity | discriminate]. Qed.

End StringFacts.

(* ================================================================== *)
(** * Facts about the stream operations *)
(* ================================================================== *)

Module StreamFacts.
Import Stream.

(** ** [failbit] is sticky: no extraction clears it *)

Lemma sentry_failed noskip st :
  failbit st = true ->
  sentry noskip st = (setstate false true st, false).
Proof.
  intros H. unfold sentry, good. rewrite H.
  now rewrite andb_false_r.
Qed.

Lemma sentry_sticky noskip st :
  failbit st = true -> failbit (fst (sentry noskip st)) = true.
Proof.
  intros H. rewrite (sentry_failed _ _ H). simpl. now rewrite H.
Qed.

Lemma sentry_ok_good noskip st st1 :
  sentry noskip st = (st1, true) -> good st1 = true.
Proof.
  unfold sentry. destruct (good st) eqn:G; [|discriminate].
  destruct (negb noskip && skipws st).
  - destruct (skip_space (rdbuf st)); [discriminate|].
    intros E; inversion E; subst. exact G.
  - intros E; inversion E; subst. exact G.
Qed.

Lemma sentry_not_ok noskip st st1 :
  sentry noskip st = (st1, false) -> failbit st1 = true.
Proof.
  unfold sentry. destruct (good st) eqn:G.
  - destruct (negb noskip && skipws st).
    + destruct (skip_space (rdbuf st)); [|discriminate].
      intros E; inversion E; subst. simpl. apply orb_true_r.
    + discriminate.
  - intros E; inversion E; subst. simpl. apply orb_true_r.
Qed.

Lemma get_char_sticky st c :
  failbit st = true -> failbit (fst (get_char st c)) = true.
Proof.
  intros H. unfold get_char. rewrite (sentry_failed _ _ H). simpl.
  now rewrite H.
Qed.

Lemma get_string_sticky st s :
  failbit st = true -> failbit (fst (get_string st s)) = true.
Proof.
  intros H. unfold get_string. rewrite (sentry_failed _ _ H). simpl.
  now rewrite H.
Qed.

Lemma get_quoted_sticky st s :
  failbit st = true -> failbit (fst (get_quoted st s)) = true.
Proof.
  intros H. unfold get_quoted, get_char.
  rewrite (sentry_failed _ _ H).
  unfold good. simpl. rewrite H.
  rewrite orb_true_r, andb_false_r. simpl. now rewrite H.
Qed.

Lemma get_double_sticky st v :
  failbit st = true -> failbit (fst (Num.get_double st v)) = true.
Proof.
  intros H. unfold Num.get_double. rewrite (sentry_failed _ _ H). simpl.
  now rewrite H.
Qed.

(** The stream a [char] extraction leaves does not depend on the value
    the variable held. *)
Lemma get_char_stream st c c' :
  fst (get_char st c) = fst (get_char st c').
Proof.
  unfold get_char. destruct (sentry false st) as [st1 [|]]; [|reflexivity].
  destruct (rdbuf st1); reflexivity.
Qed.

End StreamFacts.

(* ================================================================== *)
(** * Book: the transactional parse *)
(* ================================================================== *)

Section BookExtract.
Import Stream StreamFacts.

(** A failure anywhere in the record is still visible when the price has
    been extracted. *)
Lemma extract_fields_chain (stream : istream) :
  let f := extract_fields stream in
  (failbit (fst (f_isbn f)) = true -> failbit (fst (f_title f)) = true) /\
  (failbit (fst (f_title f)) = true -> failbit (fst (f_author f)) = true) /\
  (failbit (fst (f_author f)) = true -> failbit (fst (f_price f)) = true).
Proof.
  unfold extract_fields; cbn [f_isbn f_title f_author f_price].
  repeat split; intros H.
  - apply get_quoted_sticky, get_char_sticky, H.
  - apply get_quoted_sticky, get_char_sticky, H.
  - apply get_double_sticky, get_char_sticky, H.
Qed.

Lemma all_parsed_price (stream : istream) :
  all_parsed (extract_fields stream)
  = to_bool (fst (f_price (extract_fields stream))).
Proof.
  destruct (extract_fields_chain stream) as (H1 & H2 & H3).
  unfold all_parsed, parsed, to_bool, fail.
  destruct (failbit (fst (f_price (extract_fields stream)))) eqn:E4.
  - cbn [negb]. apply andb_false_r.
  - destruct (failbit (fst (f_author (extract_fields stream)))) eqn:E3;
      [specialize (H3 eq_refl); congruence|].
    destruct (failbit (fst (f_title (extract_fields stream)))) eqn:E2;
      [specialize (H2 eq_refl); congruence|].
    destruct (failbit (fst (f_isbn (extract_fields stream)))) eqn:E1;
      [specialize (H1 eq_refl); congruence|].
    reflexivity.
Qed.

(** [Book_extract] in terms of its field extractions. *)
Lemma Book_extract_fields (stream : istream) (book : Book) :
  let f := extract_fields stream in
  Book_extract stream book
  = (fst (f_price f),
     if to_bool (fst (f_price f))
     then mkBook (snd (f_isbn f)) (snd (f_title f)) (snd (f_author f))
                 (snd (f_price f))
     else book).
Proof.
  unfold Book_extract, extract_fields.
  cbn [f_isbn f_title f_author f_price _isbn _title _author _price
       default_Book].
  destruct (get_quoted stream EmptyString) as [s1 isbn]; cbn [fst snd].
  destruct (get_char s1 comma) as [s2 d1]; cbn [fst snd].
  destruct (get_quoted s2 EmptyString) as [s3 title]; cbn [fst snd].
  rewrite (get_char_stream s3 comma d1).
  destruct (get_char s3 d1) as [s4 d2]; cbn [fst snd].
  destruct (get_quoted s4 EmptyString) as [s5 author]; cbn [fst snd].
  rewrite (get_char_stream s5 comma d2).
  destruct (get_char s5 d2) as [s6 d3]; cbn [fst snd].
  destruct (Num.get_double s6 zero) as [s7 price]; cbn [fst snd].
  destruct (to_bool s7); reflexivity.
Qed.

End BookExtract.

(** C7. Book parse is transactional: whatever the input and whatever the
    target Book holds, the target is left unchanged as soon as one of the
    four fields fails to parse, and it receives the parsed values only when
    all four fields parsed; the stream converts to [true] in that case
    only. *)
Theorem Book_extract_transactional (stream : istream) (book : Book) :
  let f := extract_fields stream in
  snd (Book_extract stream book)
  = (if all_parsed f
     then mkBook (snd (f_isbn f)) (snd (f_title f)) (snd (f_author f))
                 (snd (f_price f))
     else book)
  /\ Stream.to_bool (fst (Book_extract stream book)) = all_parsed f.
Proof.
  intros f. unfold f.
  rewrite Book_extract_fields, all_parsed_price. split; reflexivity.
Qed.

(* ================================================================== *)
(** * Extractions consume input *)
(* ================================================================== *)

Section Consume.
Import Stream StreamFacts.

Lemma skip_space_length s : String.length (skip_space s) <= String.length s.
Proof.
  induction s as [|c s IH]; cbn [skip_space String.length]; [lia|].
  destruct (isspace c); cbn [String.length]; lia.
Qed.

Lemma sentry_avail noskip st : avail (fst (sentry noskip st)) <= avail st.
Proof.
  unfold sentry, avail. destruct (good st); [|cbn; lia].
  destruct (negb noskip && skipws st); [|cbn; lia].
  pose proof (skip_space_length (rdbuf st)) as H.
  destruct (skip_space (rdbuf st)); cbn in *; lia.
Qed.

Lemma get_char_avail st c : avail (fst (get_char st c)) <= avail st.
Proof.
  unfold get_char. pose proof (sentry_avail false st) as H.
  destruct (sentry false st) as [st1 ok]; cbn [fst] in *.
  destruct ok; [|exact H].
  unfold avail in *.
  destruct (rdbuf st1) eqn:E;
    cbn [fst rdbuf with_buf setstate String.length] in *;
    rewrite ?E; cbn [String.length]; lia.
Qed.

Lemma get_char_good_avail st c :
  good (fst (get_char st c)) = true ->
  avail (fst (get_char st c)) < avail st.
Proof.
  unfold get_char. pose proof (sentry_avail false st) as H.
  destruct (sentry false st) as [st1 ok] eqn:E; cbn [fst] in *.
  destruct ok.
  - unfold avail in *. destruct (rdbuf st1) eqn:B; cbn [fst].
    + unfold good; cbn. rewrite !orb_true_r. discriminate.
    + intros _. cbn in *. lia.
  - apply sentry_not_ok in E. cbn [fst]. unfold good. rewrite E.
    rewrite andb_false_r. discriminate.
Qed.

Lemma get_char_not_good st c :
  good (fst (get_char st c)) = false ->
  failbit (fst (get_char st c)) = true.
Proof.
  unfold get_char.
  destruct (sentry false st) as [st1 ok] eqn:E; cbn [fst] in *.
  destruct ok.
  - apply sentry_ok_good in E.
    destruct (rdbuf st1); cbn [fst].
    + intros _. cbn. apply orb_true_r.
    + unfold good in *. cbn. congruence.
  - intros _. apply sentry_not_ok in E. exact E.
Qed.

Lemma take_word_length s :
  String.length (fst (take_word s)) + String.length (snd (take_word s))
  = String.length s.
Proof.
  induction s as [|c s IH]; cbn [take_word]; [reflexivity|].
  destruct (isspace c); [reflexivity|].
  destruct (take_word s) as [w rest]. cbn in *. lia.
Qed.

Lemma get_string_avail st s : avail (fst (get_string st s)) <= avail st.
Proof.
  unfold get_string. pose proof (sentry_avail false st) as H.
  destruct (sentry false st) as [st1 ok]; cbn [fst] in *.
  destruct ok; [|exact H].
  pose proof (take_word_length (rdbuf st1)) as L.
  destruct (take_word (rdbuf st1)) as [w rest].
  unfold avail in *. cbn in *. lia.
Qed.

Lemma get_string_ok_avail st s :
  failbit (fst (get_string st s)) = false ->
  avail (fst (get_string st s)) < avail st.
Proof.
  unfold get_string. pose proof (sentry_avail false st) as H.
  destruct (sentry false st) as [st1 ok] eqn:E; cbn [fst] in *.
  destruct ok.
  - pose proof (take_word_length (rdbuf st1)) as L.
    destruct (take_word (rdbuf st1)) as [w rest].
    unfold avail in *. cbn in *.
    destruct w; cbn in *; [rewrite orb_true_r; discriminate|].
    intros _. lia.
  - apply sentry_not_ok in E. cbn. rewrite E. discriminate.
Qed.

Lemma unget_good c st :
  good st = true -> unget c st = with_buf st (String c (rdbuf st)).
Proof.
  unfold unget, sentry, good, with_buf.
  destruct st as [b e f s]; cbn.
  destruct e, f; cbn; try discriminate; reflexivity.
Qed.

(** A quoted scan that finds its closing delimiter leaves less input. *)
Lemma quoted_scan_length n :
  forall buf str str' rest,
    String.length buf <= n ->
    quoted_scan buf str = (str', Some rest) ->
    String.length rest < String.length buf.
Proof.
  induction n as [|n IH]; intros buf str str' rest Hn.
  - destruct buf; [cbn; discriminate | cbn in Hn; lia].
  - destruct buf as [|c buf]; [cbn; discriminate|].
    cbn [quoted_scan].
    destruct (c =? backslash)%char.
    + destruct buf as [|c2 buf2]; [discriminate|].
      intros E. apply IH in E; cbn in *; lia.
    + destruct (c =? dquote)%char.
      * intros E; inversion E; subst. cbn. lia.
      * intros E. apply IH in E; cbn in *; lia.
Qed.

Lemma get_quoted_ok_avail st s :
  failbit (fst (get_quoted st s)) = false ->
  avail (fst (get_quoted st s)) < avail st.
Proof.
  unfold get_quoted.
  pose proof (get_char_good_avail st nul) as G.
  pose proof (get_char_not_good st nul) as G'.
  destruct (get_char st nul) as [st1 c]; cbn [fst] in *.
  destruct (good st1) eqn:Hg; cbn [negb].
  - specialize (G eq_refl).
    destruct (c =? dquote)%char; cbn [negb].
    + destruct (quoted_scan (rdbuf (with_skipws st1 false)) EmptyString)
        as [str' [rest|]] eqn:Q.
      * intros _.
        apply quoted_scan_length with (n := String.length (rdbuf st1)) in Q;
          [|cbn; lia].
        unfold avail in *. cbn in *. lia.
      * cbn. rewrite orb_true_r. discriminate.
    + intros F. apply get_string_ok_avail in F.
      rewrite (unget_good _ _ Hg) in F.
      rewrite (unget_good _ _ Hg).
      unfold avail in *. cbn in *. lia.
  - cbn [fst]. intros F. rewrite (G' eq_refl) in F. discriminate.
Qed.

Lemma extract_digits_length n :
  forall s xtrc fm fd fs,
    String.length s <= n ->
    String.length (snd (Num.extract_digits s xtrc fm fd fs))
    <= String.length s.
Proof.
  induction n as [|n IH]; intros s xtrc fm fd fs Hn.
  - destruct s; [cbn; lia | cbn in Hn; lia].
  - destruct s as [|c s]; [cbn; lia|].
    cbn [Num.extract_digits].
    destruct (isdigit c).
    { etransitivity; [apply IH|]; cbn in *; lia. }
    destruct ((c =? ".")%char && negb fd && negb fs).
    { etransitivity; [apply IH|]; cbn in *; lia. }
    destruct (((c =? "e")%char || (c =? "E")%char) && negb fs && fm);
      [|cbn; lia].
    destruct s as [|c2 s2]; [cbn; lia|].
    destruct (Num.is_sign c2).
    + etransitivity; [apply IH|]; cbn in *; lia.
    + etransitivity; [apply IH|]; cbn in *; lia.
Qed.

Lemma extract_zeros_length s fm :
  String.length (snd (Num.extract_zeros s fm)) <= String.length s.
Proof.
  revert fm. induction s as [|c s IH]; intros fm; cbn [Num.extract_zeros];
    [cbn; lia|].
  destruct (c =? "0")%char; [|cbn; lia].
  specialize (IH true). cbn [String.length]. lia.
Qed.

Lemma extract_float_length s :
  String.length (snd (Num.extract_float s)) <= String.length s.
Proof.
  unfold Num.extract_float.
  assert (H1 : String.length (snd (Num.extract_sign s)) <= String.length s).
  { unfold Num.extract_sign. destruct s as [|c s]; [cbn; lia|].
    destruct (Num.is_sign c); cbn; lia. }
  destruct (Num.extract_sign s) as [sg s1]; cbn [snd] in H1.
  pose proof (extract_zeros_length s1 false) as H2.
  destruct (Num.extract_zeros s1 false) as [fm s2]; cbn [snd] in H2.
  etransitivity; [eapply extract_digits_length; reflexivity|]. lia.
Qed.

Lemma get_double_avail st v : avail (fst (Num.get_double st v)) <= avail st.
Proof.
  unfold Num.get_double. pose proof (sentry_avail false st) as H.
  destruct (sentry false st) as [st1 ok]; cbn [fst] in *.
  destruct ok; [|exact H].
  pose proof (extract_float_length (rdbuf st1)) as L.
  destruct (Num.extract_float (rdbuf st1)) as [xtrc rest]; cbn [snd] in L.
  destruct (Num.convert_to_v xtrc) as [v' failed].
  unfold avail in *. cbn [fst rdbuf setstate with_buf]. lia.
Qed.

(** A Book that parses takes characters off the stream. *)
Lemma Book_extract_consumes stream book :
  to_bool (fst (Book_extract stream book)) = true ->
  avail (fst (Book_extract stream book)) < avail stream.
Proof.
  rewrite Book_extract_fields. cbn [fst].
  intros H. rewrite <- all_parsed_price in H.
  unfold all_parsed, parsed, to_bool, fail in H.
  rewrite !andb_true_iff, !negb_true_iff in H.
  destruct H as [[[H1 H2] H3] H4].
  revert H1 H2 H3 H4. unfold extract_fields.
  cbn [f_isbn f_title f_author f_price]. intros H1 H2 H3 _.
  apply get_quoted_ok_avail in H1, H2, H3.
  eapply Nat.le_lt_trans; [apply get_double_avail|].
  eapply Nat.le_lt_trans; [apply get_char_avail|].
  eapply Nat.lt_trans; [exact H3|].
  eapply Nat.le_lt_trans; [apply get_char_avail|].
  eapply Nat.lt_trans; [exact H2|].
  eapply Nat.le_lt_trans; [apply get_char_avail|].
  exact H1.
Qed.

End Consume.


(* ================================================================== *)
(** * BookList: the array and the loops *)
(* ================================================================== *)

Section ArrayFacts.

Lemma list_set_length a i b : List.length (list_set a i b) = List.length a.
Proof.
  revert i; induction a as [|h t IH]; intros [|k]; cbn; auto.
Qed.

Lemma nth_list_set_eq a i b d :
  i < List.length a -> nth i (list_set a i b) d = b.
Proof.
  revert i; induction a as [|h t IH]; intros [|k] H; cbn in *;
    try lia; auto. apply IH; lia.
Qed.

Lemma nth_list_set_neq a i j b d :
  i <> j -> nth j (list_set a i b) d = nth j a d.
Proof.
  revert i j; induction a as [|h t IH]; intros [|k] [|j] H; cbn;
    try reflexivity; try congruence. apply IH; congruence.
Qed.

Lemma array_set_length a i b :
  List.length (array_set a i b) = List.length a.
Proof. apply list_set_length. Qed.

Lemma array_get_set_eq a i b :
  N.to_nat i < List.length a -> array_get (array_set a i b) i = b.
Proof. apply nth_list_set_eq. Qed.

Lemma array_get_set_neq a i j b :
  i <> j -> array_get (array_set a i b) j = array_get a j.
Proof.
  intros H. apply nth_list_set_neq. intros E. apply H.
  now apply N2Nat.inj.
Qed.

Lemma wrap_unsigned_le n : (wrap_unsigned n <= n)%N.
Proof. unfold wrap_unsigned. apply N.Div0.mod_le. Qed.

Lemma wrap_size_t_le n : (wrap_size_t n <= n)%N.
Proof. unfold wrap_size_t. apply N.Div0.mod_le. Qed.

Lemma wrap_size_t_small n : (n < 2 ^ 64)%N -> wrap_size_t n = n.
Proof. unfold wrap_size_t. apply N.mod_small. Qed.

Lemma wrap_unsigned_small n : (n < 2 ^ 32)%N -> wrap_unsigned n = n.
Proof. unfold wrap_unsigned. apply N.mod_small. Qed.

End ArrayFacts.

Section ExtractLoop.
Import Stream.

Variable moved_from : Book -> Book.

Lemma extract_loop_counter fuel capacity :
  forall x, (x_counter x <= capacity)%N ->
            (x_counter (extract_loop moved_from fuel capacity x) <= capacity)%N.
Proof.
  induction fuel as [|f IH]; intros x H; cbn [extract_loop]; [exact H|].
  destruct (to_bool (x_stream x) && (x_counter x <? capacity)%N) eqn:C;
    [|exact H].
  apply andb_true_iff in C. destruct C as [_ C]. apply N.ltb_lt in C.
  destruct (Book_extract (x_stream x) (x_book x)) as [s' b'].
  apply IH. cbn [x_counter].
  pose proof (wrap_unsigned_le (x_counter x + 1)). lia.
Qed.

Lemma extract_loop_array_length fuel capacity :
  forall x, List.length (x_array (extract_loop moved_from fuel capacity x))
            = List.length (x_array x).
Proof.
  induction fuel as [|f IH]; intros x; cbn [extract_loop]; [reflexivity|].
  destruct (to_bool (x_stream x) && (x_counter x <? capacity)%N);
    [|reflexivity].
  destruct (Book_extract (x_stream x) (x_book x)) as [s' b'].
  rewrite IH. cbn [x_array]. apply array_set_length.
Qed.

(** With fuel beyond the characters left, the loop ends because its
    condition is false. *)
Lemma extract_loop_stops fuel capacity :
  forall x,
    (to_bool (x_stream x) = true -> avail (x_stream x) < fuel) ->
    extract_continues capacity (extract_loop moved_from fuel capacity x)
    = false.
Proof.
  induction fuel as [|f IH]; intros x H; cbn [extract_loop].
  - unfold extract_continues.
    destruct (to_bool (x_stream x)); [specialize (H eq_refl); lia|].
    reflexivity.
  - destruct (to_bool (x_stream x) && (x_counter x <? capacity)%N) eqn:C;
      [|exact C].
    apply andb_true_iff in C. destruct C as [C _].
    pose proof (Book_extract_consumes (x_stream x) (x_book x)) as D.
    destruct (Book_extract (x_stream x) (x_book x)) as [s' b'].
    cbn [fst] in D. apply IH. cbn [x_stream].
    intros T. specialize (D T). specialize (H C). lia.
Qed.

(** Fuel beyond that changes nothing. *)
Lemma extract_loop_done fuel capacity x :
  extract_continues capacity x = false ->
  extract_loop moved_from fuel capacity x = x.
Proof.
  unfold extract_continues. intros H.
  destruct fuel; cbn [extract_loop]; [reflexivity|]. now rewrite H.
Qed.

Lemma extract_loop_add fuel k capacity :
  forall x,
    extract_loop moved_from (fuel + k) capacity x
    = extract_loop moved_from k capacity
        (extract_loop moved_from fuel capacity x).
Proof.
  induction fuel as [|f IH]; intros x; cbn [extract_loop Nat.add];
    [reflexivity|].
  destruct (to_bool (x_stream x) && (x_counter x <? capacity)%N) eqn:C.
  - destruct (Book_extract (x_stream x) (x_book x)) as [s' b']. apply IH.
  - symmetry. apply extract_loop_done. exact C.
Qed.

Lemma extract_run_stops stream l :
  extract_continues (_capacity l) (extract_run moved_from stream l) = false.
Proof.
  unfold extract_run. apply extract_loop_stops. cbn [x_stream].
  unfold avail. lia.
Qed.

(** More fuel than [extract_run] takes gives the same final state. *)
Lemma extract_run_fuel stream l k :
  extract_loop moved_from (S (String.length (rdbuf stream)) + k)
               (_capacity l)
               (mkExtract stream default_Book (_bookArray l) 0)
  = extract_run moved_from stream l.
Proof.
  rewrite extract_loop_add. apply extract_loop_done.
  apply extract_run_stops.
Qed.

(** Below 2^32 the counter does not wrap: it has counted the iterations. *)
Lemma extract_loop_iterations fuel capacity :
  (capacity < 2 ^ 32)%N ->
  forall x, (x_counter x <= capacity)%N ->
            x_counter (extract_loop moved_from fuel capacity x)
            = (x_counter x
               + extract_iterations moved_from fuel capacity x)%N.
Proof.
  intros Hc. induction fuel as [|f IH]; intros x H;
    cbn [extract_loop extract_iterations]; [lia|].
  unfold extract_continues.
  destruct (to_bool (x_stream x) && (x_counter x <? capacity)%N) eqn:C;
    [|lia].
  apply andb_true_iff in C. destruct C as [_ C]. apply N.ltb_lt in C.
  destruct (Book_extract (x_stream x) (x_book x)) as [s' b'].
  rewrite IH; cbn [x_counter]; rewrite wrap_unsigned_small by lia; lia.
Qed.

Lemma extract_run_counter stream l :
  (x_counter (extract_run moved_from stream l) <= _capacity l)%N.
Proof.
  unfold extract_run. apply extract_loop_counter. cbn [x_counter]. lia.
Qed.

End ExtractLoop.

(** C3. After parse-bulk the loop has stopped with its counter at most the
    capacity; when the counter is strictly below the capacity the logical
    size is set to it, and when the loop stopped after exactly [capacity]
    iterations the logical size is left at the value it had before the
    operation.  The counter is the number of iterations completed (for
    every capacity an [unsigned] can hold). *)
Theorem BookList_extract_size (moved_from : Book -> Book)
        (stream : istream) (bookList : BookList) :
  let x := extract_run moved_from stream bookList in
  let after := snd (BookList_extract moved_from stream bookList) in
  extract_continues (_capacity bookList) x = false /\
  (x_counter x <= _capacity bookList)%N /\
  ((x_counter x < _capacity bookList)%N -> size after = x_counter x) /\
  (x_counter x = _capacity bookList -> size after = size bookList) /\
  ((_capacity bookList < 2 ^ 32)%N ->
   x_counter x = extract_run_iterations moved_from stream bookList).
Proof.
  intros x after.
  split; [apply extract_run_stops|].
  split; [apply extract_run_counter|].
  unfold after, BookList_extract, size. cbn [snd _books_array_size].
  fold x. split; [|split]; intros H.
  - apply N.ltb_lt in H. now rewrite H.
  - rewrite H, N.ltb_irrefl. reflexivity.
  - unfold x, extract_run, extract_run_iterations.
    rewrite (extract_loop_iterations moved_from _ _ H); cbn [x_counter]; lia.
Qed.

(* ================================================================== *)
(** * parse-bulk on a stream without input *)
(* ================================================================== *)

Section NoInput.
Import Stream StreamFacts.

Lemma get_quoted_no_input st s :
  good st = true -> rdbuf st = EmptyString ->
  failbit (fst (get_quoted st s)) = true.
Proof.
  intros G E. unfold get_quoted, get_char, sentry. rewrite G, E.
  cbn [negb andb skip_space].
  destruct (skipws st); cbn [fst snd].
  - unfold good; cbn. rewrite !orb_true_r, andb_false_r. cbn.
    apply orb_true_r.
  - rewrite E. unfold good; cbn. rewrite !orb_true_r, andb_false_r. cbn.
    apply orb_true_r.
Qed.

Lemma Book_extract_no_input st book :
  good st = true -> rdbuf st = EmptyString ->
  to_bool (fst (Book_extract st book)) = false /\
  snd (Book_extract st book) = book.
Proof.
  intros G E.
  destruct (extract_fields_chain st) as (H1 & H2 & H3).
  pose proof (get_quoted_no_input st EmptyString G E) as F.
  assert (F4 : failbit (fst (f_price (extract_fields st))) = true).
  { apply H3, H2, H1. exact F. }
  rewrite Book_extract_fields. cbn [fst snd].
  unfold to_bool, fail. rewrite F4. split; reflexivity.
Qed.

End NoInput.

(* ================================================================== *)
(** * The size never passes the capacity *)
(* ================================================================== *)

Section Invariant.
Import Stream.

Lemma append_loop_inv fuel capacity rhs :
  forall a sz i,
    (sz <= capacity)%N ->
    let r := append_loop fuel capacity a sz rhs i in
    List.length (fst r) = List.length a /\ (snd r <= capacity)%N.
Proof.
  induction fuel as [|f IH]; intros a sz i H; cbn [append_loop].
  - cbn. auto.
  - destruct ((sz <? capacity)%N && (i <? size rhs)%N) eqn:C; [|cbn; auto].
    apply andb_true_iff in C. destruct C as [C _]. apply N.ltb_lt in C.
    pose proof (wrap_size_t_le (sz + 1)) as W.
    destruct (IH (array_set a sz (at_index rhs i)) (wrap_size_t (sz + 1))
                 (wrap_size_t (i + 1))) as [L Hs]; [lia|].
    split; [|exact Hs]. rewrite L. apply array_set_length.
Qed.

Lemma append_self_loop_inv fuel capacity :
  forall a sz i,
    (sz <= capacity)%N ->
    let r := append_self_loop fuel capacity a sz i in
    List.length (fst r) = List.length a /\ (snd r <= capacity)%N.
Proof.
  induction fuel as [|f IH]; intros a sz i H; cbn [append_self_loop].
  - cbn. auto.
  - destruct ((sz <? capacity)%N && (i <? sz)%N) eqn:C; [|cbn; auto].
    apply andb_true_iff in C. destruct C as [C _]. apply N.ltb_lt in C.
    pose proof (wrap_size_t_le (sz + 1)) as W.
    destruct (IH (array_set a sz (array_get a i)) (wrap_size_t (sz + 1))
                 (wrap_size_t (i + 1))) as [L Hs]; [lia|].
    split; [|exact Hs]. rewrite L. apply array_set_length.
Qed.

Lemma read_loop_inv fuel capacity :
  forall inFile newBook a i,
    (i <= capacity)%N ->
    let r := read_loop fuel capacity inFile newBook a i in
    List.length (fst r) = List.length a /\ (snd r <= capacity)%N.
Proof.
  induction fuel as [|f IH]; intros inFile newBook a i H; cbn [read_loop].
  - cbn. auto.
  - destruct (Book_extract inFile newBook) as [s' b'].
    destruct (to_bool s' && (i <? capacity)%N) eqn:C; [|cbn; auto].
    apply andb_true_iff in C. destruct C as [_ C]. apply N.ltb_lt in C.
    pose proof (wrap_unsigned_le (i + 1)) as W.
    destruct (IH s' b' (array_set a i b') (wrap_unsigned (i + 1)))
      as [L Hs]; [lia|].
    split; [|exact Hs]. rewrite L. apply array_set_length.
Qed.

Lemma plus_assign_well_formed l rhs :
  well_formed l -> well_formed (plus_assign l rhs).
Proof.
  intros (C & L & Hs). unfold plus_assign.
  pose proof (append_loop_inv (N.to_nat (size rhs)) (_capacity l) rhs
                (_bookArray l) (_books_array_size l) 0 Hs) as [L' S'].
  destruct (append_loop _ _ _ _ _ _) as [a sz]. cbn [fst snd] in *.
  repeat split; cbn; congruence || assumption.
Qed.

Lemma plus_assign_self_well_formed l :
  well_formed l -> well_formed (plus_assign_self l).
Proof.
  intros (C & L & Hs). unfold plus_assign_self.
  pose proof (append_self_loop_inv
                (N.to_nat (_capacity l - _books_array_size l)) (_capacity l)
                (_bookArray l) (_books_array_size l) 0 Hs) as [L' S'].
  destruct (append_self_loop _ _ _ _ _) as [a sz]. cbn [fst snd] in *.
  repeat split; cbn; congruence || assumption.
Qed.

Lemma BookList_extract_well_formed moved_from stream l :
  well_formed l -> well_formed (snd (BookList_extract moved_from stream l)).
Proof.
  intros (C & L & Hs). unfold BookList_extract. cbn [snd].
  repeat split; cbn [_capacity _bookArray _books_array_size].
  - exact C.
  - unfold extract_run. rewrite extract_loop_array_length. exact L.
  - destruct (x_counter (extract_run moved_from stream l) <? _capacity l)%N
      eqn:E; [apply N.ltb_lt in E; lia | exact Hs].
Qed.

Lemma readInFile_well_formed file l :
  well_formed l -> well_formed (readInFile file l).
Proof.
  intros (C & L & Hs). unfold readInFile.
  pose proof (read_loop_inv (S (String.length (rdbuf (ifstream file))))
                (_capacity l) (ifstream file) default_Book (_bookArray l) 0)
    as R.
  destruct (read_loop _ _ _ _ _ _) as [a i]. cbn [fst snd] in R.
  destruct R as [L' S']; [lia|].
  repeat split; cbn; congruence || assumption.
Qed.

Lemma BookList_new_well_formed n :
  (n < 2 ^ 64)%N -> well_formed (BookList_new n).
Proof.
  intros H. repeat split; cbn [BookList_new _capacity _bookArray
                               _books_array_size].
  - exact H.
  - apply repeat_length.
  - lia.
Qed.

(** Every BookList a program can build satisfies the representation
    invariant. *)
Lemma reachable_well_formed l : reachable l -> well_formed l.
Proof.
  induction 1.
  - now apply BookList_new_well_formed.
  - now apply plus_assign_well_formed.
  - now apply plus_assign_self_well_formed.
  - now apply BookList_extract_well_formed.
  - now apply readInFile_well_formed.
Qed.

Lemma plus_assign_capacity l rhs : _capacity (plus_assign l rhs) = _capacity l.
Proof.
  unfold plus_assign. destruct (append_loop _ _ _ _ _ _). reflexivity.
Qed.

End Invariant.

(** C6. [0 <= size <= capacity] holds for every BookList reachable from
    construction through append-all, parse-bulk and load-from-file; in
    particular, whatever the list [rhs], after [l += rhs] (and after
    [l += l]) the size of [l] is at most the capacity [l] was built with. *)
Theorem size_le_capacity (l : BookList) :
  reachable l ->
  (0 <= size l <= _capacity l)%N /\
  (forall rhs : BookList,
      (size (plus_assign l rhs) <= _capacity l)%N /\
      _capacity (plus_assign l rhs) = _capacity l) /\
  (size (plus_assign_self l) <= _capacity l)%N.
Proof.
  intros R. pose proof (reachable_well_formed l R) as W.
  split; [|split].
  - destruct W as (_ & _ & Hs). unfold size. lia.
  - intros rhs. pose proof (plus_assign_well_formed l rhs W) as (_ & _ & Hs).
    rewrite plus_assign_capacity in Hs. split; [exact Hs|].
    apply plus_assign_capacity.
  - pose proof (plus_assign_self_well_formed l W) as (_ & _ & Hs).
    unfold plus_assign_self in *.
    destruct (append_self_loop _ _ _ _ _). exact Hs.
Qed.

Lemma size_le_capacity_witness :
  reachable (BookList_new 3) /\
  (0 <= size (BookList_new 3) <= _capacity (BookList_new 3))%N /\
  (forall rhs : BookList,
      (size (plus_assign (BookList_new 3) rhs) <= _capacity (BookList_new 3))%N /\
      _capacity (plus_assign (BookList_new 3) rhs) = _capacity (BookList_new 3)) /\
  (size (plus_assign_self (BookList_new 3)) <= _capacity (BookList_new 3))%N.
Proof.
  assert (R : reachable (BookList_new 3)) by (apply reach_new; reflexivity).
  split; [exact R | apply (size_le_capacity (BookList_new 3) R)].
Defined.

(* ================================================================== *)
(** * BookList::find *)
(* ================================================================== *)

Section Find.

Lemma find_match_exact stored book :
  find_match stored book = true <-> exact_match stored book.
Proof.
  unfold find_match, exact_match, get_isbn, get_title, get_author, get_price.
  rewrite !andb_true_iff, !String.eqb_eq. tauto.
Qed.

Lemma find_match_not_exact stored book :
  find_match stored book = false <-> ~ exact_match stored book.
Proof.
  rewrite <- find_match_exact.
  destruct (find_match stored book); split; congruence.
Qed.

(** The loop returns the first index from [i] on at which the stored Book
    matches, or the size. *)
Lemma find_loop_first fuel a book n :
  forall i,
    (n < 2 ^ 64)%N -> (i <= n)%N -> N.to_nat (n - i) <= fuel ->
    let r := find_loop fuel a book n i in
    (i <= r <= n)%N /\
    (forall j, (i <= j < r)%N -> find_match (array_get a j) book = false) /\
    ((r < n)%N -> find_match (array_get a r) book = true).
Proof.
  induction fuel as [|f IH]; intros i Hn Hi Hf; cbn [find_loop].
  - assert (i = n) by lia. subst i.
    split; [lia|]. split; [intros j Hj; lia | intros Hr; lia].
  - destruct (i <? n)%N eqn:C.
    + apply N.ltb_lt in C.
      destruct (find_match (array_get a i) book) eqn:M.
      * split; [lia|]. split; [intros j Hj; lia | intros _; exact M].
      * rewrite wrap_size_t_small by lia.
        destruct (IH (i + 1)%N Hn) as (R1 & R2 & R3); [lia | lia |].
        split; [lia|]. split; [|exact R3].
        intros j Hj. destruct (N.eq_dec j i) as [->|Hne]; [exact M|].
        apply R2. lia.
    + apply N.ltb_ge in C.
      split; [lia|]. split; [intros j Hj; lia | intros Hr; lia].
Qed.

(** The price comparison is [==] on [double]: the two zeros compare equal
    and a NaN compares equal to nothing, itself included. *)
Lemma find_match_double_equality :
  find_match (set_price default_Book zero)
             (set_price default_Book neg_zero) = true /\
  find_match (set_price default_Book nan) (set_price default_Book nan)
  = false.
Proof. vm_compute. split; reflexivity. Qed.

End Find.

(** C5. For every BookList and Book, [find] returns the smallest index
    below [size()] whose stored Book matches on all four fields with exact
    comparison (the prices with [==] on [double], not Book's tolerance), and
    returns [size()] when no Book in [[0, size)] matches; two Books that are
    equal under Book's [==], their prices within EPSILON but not identical,
    are told apart by [find]. *)
Theorem find_first_exact_match :
  (forall (l : BookList) (book : Book),
      (size l < 2 ^ 64)%N ->
      let r := find l book in
      ((r < size l)%N /\ exact_match (at_index l r) book /\
       forall j, (j < r)%N -> ~ exact_match (at_index l j) book)
      \/
      (r = size l /\
       forall j, (j < size l)%N -> ~ exact_match (at_index l j) book))
  /\
  (reachable Examples.near_list /\
   Book_eq Examples.near1 Examples.near2 = true /\
   _price Examples.near1 <> _price Examples.near2 /\
   find Examples.near_list Examples.near1 = 0%N /\
   find Examples.near_list Examples.near2 = 1%N).
Proof.
  split.
  - intros l book Hn r.
    destruct (find_loop_first (N.to_nat (size l)) (_bookArray l) book
                (size l) 0%N Hn) as (R1 & R2 & R3); [lia | lia |].
    fold (find l book) in R1, R2, R3. fold r in R1, R2, R3.
    destruct (N.eq_dec r (size l)) as [E|E].
    + right. split; [exact E|]. intros j Hj.
      apply find_match_not_exact. apply R2. lia.
    + left. assert (r < size l)%N by lia.
      split; [assumption|]. split.
      * apply find_match_exact. unfold at_index. now apply R3.
      * intros j Hj. apply find_match_not_exact. apply R2. lia.
  - split; [apply reach_readInFile, reach_new; reflexivity|].
    split; [vm_compute; reflexivity|].
    split; [|split; vm_compute; reflexivity].
    intros E.
    assert (H : (_price Examples.near1 =? _price Examples.near2)%float = true)
      by (rewrite E; vm_compute; reflexivity).
    vm_compute in H. discriminate.
Qed.

Lemma find_first_exact_match_witness :
  let l := Examples.near_list in
  let book := Examples.near2 in
  (size l < 2 ^ 64)%N /\
  (let r := find l book in
   ((r < size l)%N /\ exact_match (at_index l r) book /\
    forall j, (j < r)%N -> ~ exact_match (at_index l j) book)
   \/
   (r = size l /\
    forall j, (j < size l)%N -> ~ exact_match (at_index l j) book)).
Proof.
  intros l book.
  assert (H : (size l < 2 ^ 64)%N) by (vm_compute; reflexivity).
  split; [exact H|].
  exact (proj1 find_first_exact_match l book H).
Defined.

(* ================================================================== *)
(** * Quoted strings: output and round trip *)
(* ================================================================== *)

Section QuotedFacts.
Import Stream.

Lemma escape_app (s1 s2 : string) :
  Quoted.escape (s1 ++ s2) = (Quoted.escape s1 ++ Quoted.escape s2)%string.
Proof.
  induction s1 as [|c s1 IH]; cbn [Quoted.escape append]; [reflexivity|].
  destruct ((c =? dquote)%char || (c =? backslash)%char);
    cbn [append]; now rewrite IH.
Qed.

(** Reading back an escaped string up to its closing delimiter. *)
Lemma quoted_scan_escape (s : string) :
  forall str rest,
    quoted_scan (Quoted.escape s ++ String dquote rest) str
    = ((str ++ s)%string, Some rest).
Proof.
  induction s as [|c s IH]; intros str rest;
    cbn [Quoted.escape append quoted_scan].
  - change (dquote =? backslash)%char with false.
    rewrite Ascii.eqb_refl. cbn [append]. now rewrite append_nil_r.
  - destruct (c =? dquote)%char eqn:D; cbn [orb].
    + cbn [append quoted_scan]. rewrite Ascii.eqb_refl.
      rewrite IH. now rewrite push_back_append.
    + destruct (c =? backslash)%char eqn:B.
      * cbn [append quoted_scan]. rewrite Ascii.eqb_refl.
        rewrite IH. now rewrite push_back_append.
      * cbn [append quoted_scan]. rewrite B, D.
        rewrite IH. now rewrite push_back_append.
Qed.

Lemma skip_space_app (w s : string) :
  all_space w = true -> skip_space (w ++ s) = skip_space s.
Proof.
  induction w as [|c w IH]; cbn [all_space append skip_space];
    [reflexivity|].
  intros H. apply andb_true_iff in H. destruct H as [H1 H2].
  rewrite H1. auto.
Qed.

(** A [char] extraction over white space and a character that is not. *)
Lemma get_char_skip (w : string) (d c : ascii) (rest : string) :
  all_space w = true -> isspace d = false ->
  get_char (of_string (w ++ String d rest)) c = (of_string rest, d).
Proof.
  intros W D. unfold get_char, sentry, of_string, good.
  cbn [eofbit failbit skipws rdbuf negb andb].
  rewrite (skip_space_app _ _ W). cbn [skip_space]. rewrite D.
  reflexivity.
Qed.

(** A quoted extraction over white space and a quoted string gives the
    string back and stops behind the closing quote. *)
Lemma get_quoted_put (w s rest str : string) :
  all_space w = true ->
  get_quoted (of_string (w ++ Quoted.put s ++ rest)) str
  = (of_string rest, s).
Proof.
  intros W. unfold get_quoted, Quoted.put, str1. cbn [append].
  rewrite (get_char_skip w dquote nul _ W eq_refl).
  change (good (of_string _)) with true. cbn [negb].
  rewrite Ascii.eqb_refl. cbn [negb].
  unfold with_skipws, of_string. cbn [rdbuf eofbit failbit skipws].
  rewrite append_assoc. cbn [append].
  rewrite quoted_scan_escape. reflexivity.
Qed.

End QuotedFacts.

Section Escaped.

Lemma escape_escaped (s : string) : escaped s (Quoted.escape s).
Proof.
  induction s as [|c s IH]; cbn [Quoted.escape]; [constructor|].
  destruct (c =? dquote)%char eqn:D; cbn [orb].
  - apply Ascii.eqb_eq in D. subst c. now constructor.
  - destruct (c =? backslash)%char eqn:B.
    + apply Ascii.eqb_eq in B. subst c. now constructor.
    + apply Ascii.eqb_neq in D, B. now constructor.
Qed.

Lemma escaped_escape (s e : string) : escaped s e -> e = Quoted.escape s.
Proof.
  induction 1 as [|s e H IH|s e H IH|c s e D B H IH];
    cbn [Quoted.escape]; subst; try reflexivity.
  apply Ascii.eqb_neq in D, B. now rewrite D, B.
Qed.

End Escaped.

(** C8 (as the code has it). [format] renders the three string fields
    between double quotes in the order isbn, title, author, each followed
    by a comma and two spaces, then the price.  Inside the quotes a field
    is written with a backslash before every embedded double quote and
    before every embedded backslash, and every other character as it is:
    an embedded double quote is a backslash followed by the quote, it is
    not doubled. *)
Theorem Book_insert_escapes_quotes (book : Book) (s1 s2 : string) :
  (exists i t a : string,
      escaped (_isbn book) i /\ escaped (_title book) t /\
      escaped (_author book) a /\
      Book_insert book
      = String dquote
          (i ++ String dquote
             (",  " ++ String dquote
                (t ++ String dquote
                   (",  " ++ String dquote
                      (a ++ String dquote
                         (",  " ++ Fmt.put_double (_price book)))))))%string)
  /\
  (forall e1 e2 : string,
      escaped s1 e1 -> escaped s2 e2 ->
      Quoted.put (s1 ++ String dquote s2)
      = String dquote
          (e1 ++ String backslash (String dquote (e2 ++ str1 dquote)))
      /\
      Quoted.put (s1 ++ String backslash s2)
      = String dquote
          (e1 ++ String backslash (String backslash (e2 ++ str1 dquote))))
  /\
  (forall s e : string, escaped s e <-> e = Quoted.escape s)
  /\
  Quoted.put (s1 ++ String dquote s2)
  = String dquote
      (Quoted.escape s1
       ++ String backslash (String dquote (Quoted.escape s2 ++ str1 dquote))).
Proof.
  assert (Q : Quoted.put (s1 ++ String dquote s2)
              = String dquote
                  (Quoted.escape s1
                   ++ String backslash
                        (String dquote (Quoted.escape s2 ++ str1 dquote)))).
  { unfold Quoted.put. rewrite escape_app. cbn [Quoted.escape].
    rewrite Ascii.eqb_refl. cbn [orb]. rewrite append_assoc. reflexivity. }
  split; [|split; [|split; [|exact Q]]].
  - exists (Quoted.escape (_isbn book)), (Quoted.escape (_title book)),
      (Quoted.escape (_author book)).
    repeat split; try apply escape_escaped.
    unfold Book_insert, Quoted.put, get_isbn, get_title, get_author,
      get_price, str1.
    cbn [append]. rewrite !append_assoc. cbn [append]. reflexivity.
  - intros e1 e2 E1 E2.
    apply escaped_escape in E1, E2. subst e1 e2. split; [exact Q|].
    unfold Quoted.put. rewrite escape_app. cbn [Quoted.escape].
    change (backslash =? dquote)%char with false.
    rewrite Ascii.eqb_refl. cbn [orb]. rewrite append_assoc. reflexivity.
  - intros s e. split; [apply escaped_escape|].
    intros ->. apply escape_escaped.
Qed.

(** C8, the claim as stated, at the Book whose isbn is a, a double quote,
    b: the code writes a backslash before the embedded quote, the doubling
    convention would write the quote twice. *)
Lemma Book_insert_does_not_double :
  Book_insert Examples.quote_book <> Spec.format Examples.quote_book.
Proof. vm_compute. discriminate. Qed.

(* ================================================================== *)
(** * Parsing a whole record *)
(* ================================================================== *)

Section Record.
Import Stream.

(** The sentry of a formatted extraction discards leading white space. *)
Lemma sentry_skip (w rest : string) :
  all_space w = true ->
  sentry false (of_string (w ++ rest)) = sentry false (of_string rest).
Proof.
  intros W. unfold sentry, of_string, good.
  cbn [eofbit failbit skipws rdbuf negb andb].
  rewrite (skip_space_app _ _ W). reflexivity.
Qed.

Lemma get_double_skip (w rest : string) (v : float) :
  all_space w = true ->
  Num.get_double (of_string (w ++ rest)) v
  = Num.get_double (of_string rest) v.
Proof.
  intros W. unfold Num.get_double. now rewrite (sentry_skip _ _ W).
Qed.

Lemma get_char_next (d c : ascii) (rest : string) :
  isspace d = false ->
  get_char (of_string (String d rest)) c = (of_string rest, d).
Proof. intros D. exact (get_char_skip EmptyString d c rest eq_refl D). Qed.

(** A record of three quoted strings, each followed by one character that
    is not white space, then the text of the price: the Book is read with
    those strings whatever the three characters are, and the parse
    succeeds exactly when the extraction of the price does. *)
Lemma Book_extract_record (w0 i w1 t w2 a rest : string) (d1 d2 d3 : ascii)
      (target : Book) :
  all_space w0 = true -> all_space w1 = true -> all_space w2 = true ->
  isspace d1 = false -> isspace d2 = false -> isspace d3 = false ->
  Book_extract
    (of_string (w0 ++ Quoted.put i ++ String d1
                (w1 ++ Quoted.put t ++ String d2
                 (w2 ++ Quoted.put a ++ String d3 rest))))
    target
  = let r := Num.get_double (of_string rest) zero in
    (fst r, if to_bool (fst r) then mkBook i t a (snd r) else target).
Proof.
  intros W0 W1 W2 D1 D2 D3. unfold Book_extract.
  cbn [_isbn _title _author _price default_Book].
  rewrite (get_quoted_put w0 i _ _ W0).
  rewrite (get_char_next d1 comma _ D1).
  rewrite (get_quoted_put w1 t _ _ W1).
  rewrite (get_char_next d2 d1 _ D2).
  rewrite (get_quoted_put w2 a _ _ W2).
  rewrite (get_char_next d3 d2 _ D3).
  destruct (Num.get_double (of_string rest) zero) as [s7 price].
  cbn [fst snd]. destruct (to_bool s7); reflexivity.
Qed.

End Record.

(** C9 (as the code has it). Book parse does not check the delimiter: the
    character after each string field is taken whatever it is.  A record
    whose three string fields are each followed by any one character that
    is not white space parses to the Book with those strings, and succeeds
    or fails with the extraction of the price alone. *)
Theorem Book_extract_any_delimiter
        (i t a w1 w2 rest : string) (d1 d2 d3 : ascii) (target : Book) :
  all_space w1 = true -> all_space w2 = true ->
  isspace d1 = false -> isspace d2 = false -> isspace d3 = false ->
  Book_extract
    (Stream.of_string
       (Quoted.put i ++ String d1
        (w1 ++ Quoted.put t ++ String d2
         (w2 ++ Quoted.put a ++ String d3 rest))))
    target
  = let r := Num.get_double (Stream.of_string rest) zero in
    (fst r,
     if Stream.to_bool (fst r) then mkBook i t a (snd r) else target).
Proof.
  intros W1 W2 D1 D2 D3.
  exact (Book_extract_record EmptyString i w1 t w2 a rest d1 d2 d3 target
           eq_refl W1 W2 D1 D2 D3).
Qed.

(** C9, the claim as stated, at a record whose first comma is missing:
    the parse does not mark failure, it yields a Book. *)
Lemma Book_extract_missing_comma :
  let r := Book_extract (Stream.of_string Examples.no_comma_text)
                        default_Book in
  Stream.fail (fst r) = false /\ _isbn (snd r) = "i"%string.
Proof. vm_compute. split; reflexivity. Qed.

Lemma Book_extract_any_delimiter_witness :
  Book_extract
    (Stream.of_string
       (Quoted.put "i" ++ String ";"%char
        (" " ++ Quoted.put "t" ++ String "|"%char
         (" " ++ Quoted.put "a" ++ String "/"%char " 9.99")))%string)
    default_Book
  = let r := Num.get_double (Stream.of_string " 9.99") zero in
    (fst r,
     if Stream.to_bool (fst r) then mkBook "i" "t" "a" (snd r)
     else default_Book).
Proof.
  apply (Book_extract_any_delimiter "i" "t" "a" " " " " " 9.99"
           ";"%char "|"%char "/"%char default_Book); reflexivity.
Defined.

(* ================================================================== *)
(** * Round trip of a Book through its text *)
(* ================================================================== *)

Section RoundTrip.
Import Stream.

(** Parsing what [Book_insert] wrote: the strings come back as they were,
    the price is what the extraction of its rendering gives. *)
Lemma Book_extract_insert (book target : Book) :
  Book_extract (of_string (Book_insert book)) target
  = let r := Num.get_double (of_string (Fmt.put_double (_price book))) zero in
    (fst r,
     if to_bool (fst r)
     then mkBook (_isbn book) (_title book) (_author book) (snd r)
     else target).
Proof.
  unfold Book_insert, get_isbn, get_title, get_author, get_price.
  rewrite <- (get_double_skip "  " (Fmt.put_double (_price book)) zero eq_refl).
  exact (Book_extract_record EmptyString (_isbn book) "  " (_title book) "  "
           (_author book) ("  " ++ Fmt.put_double (_price book)) comma comma
           comma target eq_refl eq_refl eq_refl eq_refl eq_refl eq_refl).
Qed.

End RoundTrip.

(** C4 (as the code has it). For every Book whose price survives its
    default rendering (six significant digits) to within EPSILON, parsing
    the text produced by formatting the Book succeeds and yields a Book
    equal to it under Book's equality, the three string fields exactly
    equal. *)
Theorem Book_round_trip (book target : Book) :
  price_survives (_price book) ->
  let r := Book_extract (Stream.of_string (Book_insert book)) target in
  Stream.fail (fst r) = false /\
  _isbn (snd r) = _isbn book /\ _title (snd r) = _title book /\
  _author (snd r) = _author book /\
  Book_eq (snd r) book = true.
Proof.
  intros [F E]. rewrite Book_extract_insert.
  destruct (Num.get_double _ zero) as [s7 price]. cbn [fst snd] in *.
  unfold Stream.to_bool, Stream.fail. rewrite F. cbn [negb fst snd].
  unfold Book_eq. cbn [_isbn _title _author _price].
  rewrite !String.eqb_refl, E. repeat split; reflexivity.
Qed.

Lemma Book_round_trip_witness :
  price_survives (_price Examples.keats) /\
  (let r := Book_extract (Stream.of_string (Book_insert Examples.keats))
                         default_Book in
   Stream.fail (fst r) = false /\
   _isbn (snd r) = _isbn Examples.keats /\
   _title (snd r) = _title Examples.keats /\
   _author (snd r) = _author Examples.keats /\
   Book_eq (snd r) Examples.keats = true).
Proof.
  assert (H : price_survives (_price Examples.keats))
    by (split; vm_compute; reflexivity).
  split; [exact H | exact (Book_round_trip Examples.keats default_Book H)].
Defined.

(** C4, the claim as stated, at a Book whose price is 1234.56789: the
    text holds 1234.57, the parse succeeds, and the Book read back is not
    equal to the Book written. *)
Lemma Book_round_trip_loses_digits :
  let r := Book_extract (Stream.of_string (Book_insert Examples.long_price))
                        default_Book in
  Stream.fail (fst r) = false /\
  Book_eq (snd r) Examples.long_price = false.
Proof. vm_compute. split; reflexivity. Qed.


(* ================================================================== *)
(** * parse-bulk after a run of well-formed records *)
(* ================================================================== *)

Section BulkReads.
Import Stream StreamFacts.

Variable moved_from : Book -> Book.

Lemma Book_extract_sticky st book :
  failbit st = true -> to_bool (fst (Book_extract st book)) = false.
Proof.
  intros F. rewrite Book_extract_fields. cbn [fst].
  destruct (extract_fields_chain st) as (H1 & H2 & H3).
  unfold to_bool, fail. rewrite H3; [reflexivity|].
  apply H2, H1. unfold extract_fields. cbn [f_isbn].
  now apply get_quoted_sticky.
Qed.

(** A read that fails leaves the target as it was. *)
Lemma Book_extract_failed st book :
  to_bool (fst (Book_extract st book)) = false ->
  snd (Book_extract st book) = book.
Proof.
  rewrite Book_extract_fields. cbn [fst snd]. intros H. now rewrite H.
Qed.

Lemma reads_usable st b bs st' : reads st (b :: bs) st' -> to_bool st = true.
Proof.
  intros R. inversion R as [|? st1 ? ? ? E T R']; subst.
  destruct (to_bool st) eqn:U; [reflexivity|].
  unfold to_bool, fail in U. apply negb_false_iff in U.
  pose proof (Book_extract_sticky st default_Book U) as F.
  rewrite E in F. cbn [fst] in F. congruence.
Qed.

(** Each read takes input, so the Books read are fewer than the
    characters. *)
Lemma reads_avail st books st' :
  reads st books st' -> List.length books + avail st' <= avail st.
Proof.
  induction 1 as [|st st1 st' b bs E T R IH]; cbn [List.length]; [lia|].
  pose proof (Book_extract_consumes st default_Book) as C.
  rewrite E in C. cbn [fst] in C. specialize (C T). lia.
Qed.

(** The loop over a run of Books that parse: one iteration each. *)
Lemma extract_loop_reads st books st' :
  reads st books st' ->
  forall fuel capacity book a c,
    (c + N.of_nat (List.length books) <= capacity)%N ->
    (c + N.of_nat (List.length books) < 2 ^ 32)%N ->
    extract_loop moved_from (List.length books + fuel) capacity
                 (mkExtract st book a c)
    = extract_loop moved_from fuel capacity
        (mkExtract st' (book_after moved_from book books)
                   (store_books a c books)
                   (c + N.of_nat (List.length books))).
Proof.
  induction 1 as [st|st st1 st' b bs E T R IH];
    intros fuel capacity book a c Hc Hw.
  - cbn [List.length Nat.add book_after fold_left store_books].
    now rewrite N.add_0_r.
  - pose proof (reads_usable _ _ _ _ (reads_cons _ _ _ _ _ E T R)) as U.
    cbn [List.length] in *. cbn [Nat.add extract_loop x_stream x_counter
                                 x_book x_array].
    assert (L : (c <? capacity)%N = true) by (apply N.ltb_lt; lia).
    rewrite U, L. cbn [andb]. rewrite (E book).
    rewrite wrap_unsigned_small by lia.
    rewrite IH by lia.
    cbn [book_after fold_left store_books].
    do 2 f_equal. lia.
Qed.

Lemma store_books_length a c books :
  List.length (store_books a c books) = List.length a.
Proof.
  revert a c; induction books as [|b bs IH]; intros a c;
    cbn [store_books]; [reflexivity|].
  rewrite IH. apply array_set_length.
Qed.

Lemma store_books_before a c books j :
  (j < c)%N -> array_get (store_books a c books) j = array_get a j.
Proof.
  revert a c; induction books as [|b bs IH]; intros a c H;
    cbn [store_books]; [reflexivity|].
  rewrite IH by lia. apply array_get_set_neq. lia.
Qed.

(** The Books are in the array in the order they were read. *)
Lemma store_books_get a c books j :
  N.to_nat c + List.length books <= List.length a ->
  j < List.length books ->
  array_get (store_books a c books) (c + N.of_nat j)
  = nth j books default_Book.
Proof.
  revert a c j; induction books as [|b bs IH]; intros a c j Ha Hj;
    cbn [List.length] in *; [lia|].
  cbn [store_books]. destruct j as [|j].
  - rewrite N.add_0_r. rewrite store_books_before by lia.
    cbn [nth]. apply array_get_set_eq. lia.
  - cbn [nth]. replace (c + N.of_nat (S j))%N with (c + 1 + N.of_nat j)%N
      by lia.
    apply IH; [rewrite array_set_length; lia | lia].
Qed.

Lemma reads_end_usable st books st' :
  reads st books st' -> to_bool st = true -> to_bool st' = true.
Proof. induction 1; auto. Qed.

(** The stream a Book extraction leaves does not depend on the target. *)
Lemma Book_extract_stream st book book' :
  fst (Book_extract st book) = fst (Book_extract st book').
Proof. now rewrite !Book_extract_fields. Qed.

(** The final state of the loop when [books] parse, the next read fails and
    the capacity is not reached. *)
Lemma extract_run_reads_then_fails stream books st' l :
  reads stream books st' ->
  to_bool stream = true ->
  to_bool (fst (Book_extract st' default_Book)) = false ->
  (N.of_nat (List.length books) + 1 <= _capacity l)%N ->
  (N.of_nat (List.length books) + 1 < 2 ^ 32)%N ->
  let last := book_after moved_from default_Book books in
  extract_run moved_from stream l
  = mkExtract (fst (Book_extract st' default_Book))
              (moved_from last)
              (array_set (store_books (_bookArray l) 0 books)
                         (N.of_nat (List.length books)) last)
              (N.of_nat (List.length books) + 1).
Proof.
  intros R U F Hc Hw last.
  pose proof (reads_avail _ _ _ R) as Av.
  pose proof (reads_end_usable _ _ _ R U) as U'.
  unfold extract_run.
  replace (S (String.length (rdbuf stream)))
    with (List.length books + S (avail stream - List.length books))
    by (unfold avail in *; lia).
  rewrite (extract_loop_reads _ _ _ R) by lia.
  rewrite N.add_0_l. fold last.
  cbn [extract_loop x_stream x_counter x_book x_array].
  assert (L : (N.of_nat (List.length books) <? _capacity l)%N = true)
    by (apply N.ltb_lt; lia).
  rewrite U', L. cbn [andb].
  rewrite (Book_extract_stream st' default_Book last) in F.
  pose proof (Book_extract_failed st' last F) as B.
  rewrite (Book_extract_stream st' default_Book last).
  destruct (Book_extract st' last) as [s2 b2]. cbn [fst snd] in *. subst b2.
  rewrite wrap_unsigned_small by lia.
  apply extract_loop_done. unfold extract_continues. cbn [x_stream].
  now rewrite F.
Qed.

(** parse-bulk on a stream from which [books] parse and the next read
    fails, the capacity not reached: every Book read is stored in order,
    and so is the read that failed; the size counts it. *)
Lemma BookList_extract_reads_then_fails stream books st' l :
  reads stream books st' ->
  to_bool stream = true ->
  to_bool (fst (Book_extract st' default_Book)) = false ->
  List.length (_bookArray l) = N.to_nat (_capacity l) ->
  (N.of_nat (List.length books) + 1 < _capacity l)%N ->
  (N.of_nat (List.length books) + 1 < 2 ^ 32)%N ->
  let after := snd (BookList_extract moved_from stream l) in
  size after = (N.of_nat (List.length books) + 1)%N /\
  (forall j, j < List.length books ->
             at_index after (N.of_nat j) = nth j books default_Book) /\
  at_index after (N.of_nat (List.length books))
  = book_after moved_from default_Book books.
Proof.
  intros R U F La Hc Hw after.
  unfold after, BookList_extract. cbn [snd].
  rewrite (extract_run_reads_then_fails _ _ _ l R U F) by lia.
  unfold size, at_index. cbn [x_counter x_array _books_array_size _bookArray].
  assert (L : (N.of_nat (List.length books) + 1 <? _capacity l)%N = true)
    by (apply N.ltb_lt; lia).
  rewrite L. split; [reflexivity|]. split.
  - intros j Hj. rewrite array_get_set_neq by lia.
    apply (store_books_get (_bookArray l) 0 books j); lia.
  - apply array_get_set_eq. rewrite store_books_length. lia.
Qed.

(** parse-bulk on a stream from which as many Books parse as the list has
    slots: they are stored in order and the size is not assigned. *)
Lemma BookList_extract_reads_to_capacity stream books st' l :
  reads stream books st' ->
  List.length (_bookArray l) = N.to_nat (_capacity l) ->
  N.of_nat (List.length books) = _capacity l ->
  (_capacity l < 2 ^ 32)%N ->
  let r := BookList_extract moved_from stream l in
  fst r = st' /\
  size (snd r) = size l /\
  (forall j, j < List.length books ->
             at_index (snd r) (N.of_nat j) = nth j books default_Book).
Proof.
  intros R La Hc Hw r.
  pose proof (reads_avail _ _ _ R) as Av.
  assert (X : extract_run moved_from stream l
              = mkExtract st' (book_after moved_from default_Book books)
                          (store_books (_bookArray l) 0 books)
                          (_capacity l)).
  { unfold extract_run.
    replace (S (String.length (rdbuf stream)))
      with (List.length books + S (avail stream - List.length books))
      by (unfold avail in *; lia).
    rewrite (extract_loop_reads _ _ _ R) by lia.
    rewrite N.add_0_l, Hc.
    apply extract_loop_done. unfold extract_continues. cbn [x_counter].
    now rewrite N.ltb_irrefl, andb_false_r. }
  unfold r, BookList_extract. rewrite X.
  cbn [fst snd x_stream x_counter x_array]. rewrite N.ltb_irrefl.
  unfold size, at_index. cbn [_books_array_size _bookArray].
  split; [reflexivity|]. split; [reflexivity|].
  intros j Hj. apply (store_books_get (_bookArray l) 0 books j); lia.
Qed.

End BulkReads.

(** C10. A BookList of capacity at least 2 on which parse-bulk is applied
    with a stream in a good state that fails on the first read attempt (an
    empty input) ends with logical size 1, slot 0 holding a
    default-constructed Book: the read attempt that failed is stored and
    counted.  It is so for a freshly constructed list, and for any other
    list the store is visible: slot 0 is overwritten with the default Book
    whatever it held, and the other slots are as they were. *)
Theorem BookList_extract_empty_stream (moved_from : Book -> Book)
        (stream : istream) :
  Stream.good stream = true ->
  Stream.to_bool (fst (Book_extract stream default_Book)) = false ->
  (forall n : N,
      (2 <= n)%N ->
      let after := snd (BookList_extract moved_from stream (BookList_new n)) in
      size after = 1%N /\ at_index after 0 = default_Book) /\
  (forall l : BookList,
      (2 <= _capacity l)%N ->
      List.length (_bookArray l) = N.to_nat (_capacity l) ->
      let after := snd (BookList_extract moved_from stream l) in
      size after = 1%N /\ at_index after 0 = default_Book /\
      forall j : N, j <> 0%N -> at_index after j = at_index l j).
Proof.
  intros G F.
  assert (U : Stream.to_bool stream = true).
  { unfold Stream.good in G. apply andb_true_iff in G. apply G. }
  assert (A : forall l : BookList,
             (2 <= _capacity l)%N ->
             List.length (_bookArray l) = N.to_nat (_capacity l) ->
             let after := snd (BookList_extract moved_from stream l) in
             size after = 1%N /\ at_index after 0 = default_Book /\
             forall j : N, j <> 0%N -> at_index after j = at_index l j).
  { intros l Hc La after. unfold after, BookList_extract. cbn [snd].
    rewrite (extract_run_reads_then_fails moved_from stream [] stream l
               (reads_nil stream) U F);
      [|cbn [List.length]; lia | reflexivity].
    cbn [List.length book_after fold_left store_books N.of_nat N.add
         x_counter x_array].
    assert (L : (1 <? _capacity l)%N = true) by (apply N.ltb_lt; lia).
    rewrite L. unfold size, at_index. cbn [_books_array_size _bookArray].
    split; [reflexivity|]. split.
    - apply array_get_set_eq. lia.
    - intros j Hj. apply array_get_set_neq. congruence. }
  split; [|exact A].
  intros n Hn after.
  destruct (A (BookList_new n)) as (S1 & S2 & _).
  - exact Hn.
  - cbn [BookList_new _bookArray _capacity]. apply repeat_length.
  - split; [exact S1 | exact S2].
Qed.

Lemma BookList_extract_empty_stream_witness :
  let stream := Stream.of_string EmptyString in
  let fresh := snd (BookList_extract (fun b => b) stream (BookList_new 2)) in
  let after := snd (BookList_extract (fun b => b) stream Examples.near_list) in
  Stream.good stream = true /\
  Stream.to_bool (fst (Book_extract stream default_Book)) = false /\
  (size fresh = 1%N /\ at_index fresh 0 = default_Book) /\
  at_index Examples.near_list 0 = Examples.near1 /\
  size after = 1%N /\ at_index after 0 = default_Book /\
  at_index after 1 = Examples.near2.
Proof.
  intros stream fresh after.
  assert (G : Stream.good stream = true) by reflexivity.
  assert (F : Stream.to_bool (fst (Book_extract stream default_Book)) = false)
    by (apply Book_extract_no_input; reflexivity).
  destruct (BookList_extract_empty_stream (fun b => b) stream G F)
    as [Fresh Any].
  split; [exact G|]. split; [exact F|].
  split; [apply (Fresh 2%N); lia|].
  split; [vm_compute; reflexivity|].
  destruct (Any Examples.near_list) as (S1 & S2 & S3);
    [vm_compute; discriminate | reflexivity |].
  split; [exact S1|]. split; [exact S2|].
  fold after in S3. rewrite (S3 1%N) by discriminate.
  vm_compute. reflexivity.
Defined.

(** ** On concrete streams *)

(** C1, on the code: a list of capacity 3 and a stream whose first record
    is well formed and whose second record has an unterminated quote.  The
    first Book is kept at position 0, but the failed read is stored at
    position 1 and counted: the logical size is 2, not 1. *)
Theorem BookList_extract_counts_failed_read (moved_from : Book -> Book) :
  let r := BookList_extract moved_from
             (Stream.of_string Examples.second_malformed) (BookList_new 3) in
  Stream.fail (fst r) = true /\
  size (snd r) = 2%N /\
  at_index (snd r) 0 = Examples.book1 /\
  at_index (snd r) 1 = moved_from Examples.book1.
Proof. vm_compute. repeat split; reflexivity. Qed.

(** C2, on the code: a fresh list of capacity 2 and a stream of three
    well-formed records.  The first two records are stored and the third
    is left unread without an error, but the loop ends with its counter
    equal to the capacity, so the logical size stays 0, not 2. *)
Theorem BookList_extract_full_keeps_size (moved_from : Book -> Book) :
  let r := BookList_extract moved_from
             (Stream.of_string Examples.three_records) (BookList_new 2) in
  Stream.fail (fst r) = false /\
  rdbuf (fst r) = (Examples.nl ++ Examples.record3 ++ Examples.nl)%string /\
  at_index (snd r) 0 = Examples.book1 /\
  at_index (snd r) 1 = Examples.book2 /\
  size (snd r) = 0%N.
Proof. vm_compute. repeat split; reflexivity. Qed.

(** The sibling path: [readInFile] on the same inputs sets the size to the
    number of Books read. *)
Lemma readInFile_counts_books_read :
  size (readInFile (Some Examples.second_malformed) (BookList_new 3)) = 1%N /\
  size (readInFile (Some Examples.three_records) (BookList_new 2)) = 2%N /\
  size (readInFile None (BookList_new 5)) = 0%N.
Proof. vm_compute. repeat split; reflexivity. Qed.

(* ================================================================== *)
(** * The loops run to their end *)
(* ================================================================== *)

(** Each loop is given as many steps as its bound allows; the lemmas below
    show that the bound is never what stops it: with any number of further
    steps the result is the same. *)
Section Fuel.
Import Stream.

Lemma read_loop_done k capacity inFile newBook a i :
  to_bool (fst (Book_extract inFile newBook)) && (i <? capacity)%N = false ->
  read_loop k capacity inFile newBook a i = (a, i).
Proof.
  intros H. destruct k; cbn [read_loop]; [reflexivity|].
  destruct (Book_extract inFile newBook) as [s' b']. cbn [fst] in H.
  now rewrite H.
Qed.

Lemma read_loop_fuel fuel k capacity :
  forall inFile newBook a i,
    avail inFile < fuel ->
    read_loop (fuel + k) capacity inFile newBook a i
    = read_loop fuel capacity inFile newBook a i.
Proof.
  induction fuel as [|f IH]; intros inFile newBook a i H; [lia|].
  cbn [read_loop Nat.add].
  pose proof (Book_extract_consumes inFile newBook) as D.
  destruct (Book_extract inFile newBook) as [s' b']. cbn [fst] in D.
  destruct (to_bool s' && (i <? capacity)%N) eqn:C; [|reflexivity].
  apply andb_true_iff in C. destruct C as [C _]. specialize (D C).
  apply IH. lia.
Qed.

Lemma readInFile_fuel file l k :
  let inFile := ifstream file in
  read_loop (S (avail inFile) + k) (_capacity l) inFile default_Book
            (_bookArray l) 0
  = read_loop (S (avail inFile)) (_capacity l) inFile default_Book
              (_bookArray l) 0.
Proof. intros inFile. apply read_loop_fuel. lia. Qed.

Lemma append_loop_fuel fuel k capacity rhs :
  forall a sz i,
    (size rhs < 2 ^ 64)%N -> (i <= size rhs)%N ->
    N.to_nat (size rhs - i) <= fuel ->
    append_loop (fuel + k) capacity a sz rhs i
    = append_loop fuel capacity a sz rhs i.
Proof.
  induction fuel as [|f IH]; intros a sz i Hr Hi Hf.
  - assert (i = size rhs) by lia. subst i. cbn [Nat.add append_loop].
    destruct k; cbn [append_loop]; [reflexivity|].
    now rewrite N.ltb_irrefl, andb_false_r.
  - cbn [Nat.add append_loop].
    destruct ((sz <? capacity)%N && (i <? size rhs)%N) eqn:C; [|reflexivity].
    apply andb_true_iff in C. destruct C as [_ C]. apply N.ltb_lt in C.
    rewrite (wrap_size_t_small (i + 1)) by lia.
    apply IH; lia.
Qed.

Lemma append_self_loop_fuel fuel k capacity :
  forall a sz i,
    (capacity < 2 ^ 64)%N ->
    N.to_nat (capacity - sz) <= fuel ->
    append_self_loop (fuel + k) capacity a sz i
    = append_self_loop fuel capacity a sz i.
Proof.
  induction fuel as [|f IH]; intros a sz i Hc Hf.
  - assert (H : (sz <? capacity)%N = false) by (apply N.ltb_ge; lia).
    cbn [Nat.add append_self_loop].
    destruct k; cbn [append_self_loop]; [reflexivity|].
    now rewrite H.
  - cbn [Nat.add append_self_loop].
    destruct ((sz <? capacity)%N && (i <? sz)%N) eqn:C; [|reflexivity].
    apply andb_true_iff in C. destruct C as [C _]. apply N.ltb_lt in C.
    rewrite (wrap_size_t_small (sz + 1)) by lia.
    apply IH; lia.
Qed.

(** On reachable lists the steps given to [+=] are enough. *)
Lemma plus_assign_fuel l rhs k :
  reachable rhs ->
  append_loop (N.to_nat (size rhs) + k) (_capacity l) (_bookArray l)
              (_books_array_size l) rhs 0
  = append_loop (N.to_nat (size rhs)) (_capacity l) (_bookArray l)
                (_books_array_size l) rhs 0.
Proof.
  intros R. destruct (reachable_well_formed rhs R) as (C & _ & Hs).
  apply append_loop_fuel; unfold size; lia.
Qed.

Lemma plus_assign_self_fuel l k :
  reachable l ->
  append_self_loop (N.to_nat (_capacity l - _books_array_size l) + k)
                   (_capacity l) (_bookArray l) (_books_array_size l) 0
  = append_self_loop (N.to_nat (_capacity l - _books_array_size l))
                     (_capacity l) (_bookArray l) (_books_array_size l) 0.
Proof.
  intros R. destruct (reachable_well_formed l R) as (C & _ & Hs).
  apply append_self_loop_fuel; lia.
Qed.

End Fuel.

(* ================================================================== *)
(** * The stream model on known values *)
(* ================================================================== *)

Section KnownValues.
Import Stream.

(** What [printf] with the format %.6g prints. *)
Lemma put_double_known :
  Fmt.put_double Examples.price_91_11 = "91.11"%string /\
  Fmt.put_double Examples.price_1234_56789 = "1234.57"%string /\
  Fmt.put_double Examples.price_9_9901 = "9.9901"%string /\
  Fmt.put_double 0.5%float = "0.5"%string /\
  Fmt.put_double 100000%float = "100000"%string /\
  Fmt.put_double 1000000%float = "1e+06"%string /\
  Fmt.put_double 0x1p-14%float = "6.10352e-05"%string /\
  Fmt.put_double (-2.5)%float = "-2.5"%string /\
  Fmt.put_double zero = "0"%string /\
  Fmt.put_double infinity = "inf"%string.
Proof. vm_compute. repeat split; reflexivity. Qed.

(** What [strtod] returns on the text of a price. *)
Lemma get_double_known :
  snd (Num.get_double (of_string "9.99") zero) = Examples.price_9_99 /\
  snd (Num.get_double (of_string "9.9901") zero) = Examples.price_9_9901 /\
  snd (Num.get_double (of_string "91.11") zero) = Examples.price_91_11 /\
  snd (Num.get_double (of_string "1234.56789") zero)
  = Examples.price_1234_56789 /\
  snd (Num.get_double (of_string "1.0E-4") zero) = EPSILON /\
  snd (Num.get_double (of_string "-2.5e0") zero) = (-2.5)%float.
Proof. vm_compute. repeat split; reflexivity. Qed.

(** Text that is not a number raises [failbit]; a number stops at the
    first character that cannot belong to it. *)
Lemma get_double_stops :
  failbit (fst (Num.get_double (of_string "abc") zero)) = true /\
  failbit (fst (Num.get_double (of_string "inf") zero)) = true /\
  failbit (fst (Num.get_double (of_string "1e") zero)) = true /\
  failbit (fst (Num.get_double (of_string "1e999") zero)) = true /\
  Num.get_double (of_string "12.5, x") zero
  = (of_string ", x", 12.5%float).
Proof. vm_compute. repeat split; reflexivity. Qed.

(** A quoted string is read with its escapes removed; a word without an
    opening quote is read up to the next white space. *)
Lemma get_quoted_known :
  get_quoted (of_string (Quoted.put (String "a" (String dquote "b")) ++ ","))
             EmptyString
  = (of_string ",", String "a" (String dquote "b")) /\
  get_quoted (of_string "  word next") EmptyString
  = (of_string " next", "word"%string) /\
  failbit (fst (get_quoted (of_string (String dquote "open")) EmptyString))
  = true.
Proof. vm_compute. repeat split; reflexivity. Qed.

(** The first two of the three records parse one after the other. *)
Lemma reads_two_records :
  reads (of_string Examples.three_records)
        [Examples.book1; Examples.book2]
        (of_string (Examples.nl ++ Examples.record3 ++ Examples.nl)).
Proof.
  eapply reads_cons;
    [intros target; vm_compute; reflexivity | reflexivity |].
  eapply reads_cons;
    [intros target; vm_compute; reflexivity | reflexivity |].
  apply reads_nil.
Qed.

End KnownValues.

(* ================================================================== *)
(** * readInFile *)
(* ================================================================== *)

Section ReadInFile.
Import Stream StreamFacts.

Lemma skip_space_all (w : string) :
  all_space w = true -> skip_space w = EmptyString.
Proof.
  induction w as [|c w IH]; cbn [all_space skip_space]; [reflexivity|].
  intros H. apply andb_true_iff in H. destruct H as [H1 H2].
  rewrite H1. auto.
Qed.

(** No Book can be read from a file that holds white space only. *)
Lemma Book_extract_blank (w : string) (book : Book) :
  all_space w = true ->
  to_bool (fst (Book_extract (of_string w) book)) = false.
Proof.
  intros W. rewrite Book_extract_fields. cbn [fst].
  destruct (extract_fields_chain (of_string w)) as (H1 & H2 & H3).
  unfold to_bool, fail. rewrite H3; [reflexivity|]. apply H2, H1.
  unfold extract_fields. cbn [f_isbn].
  unfold get_quoted, get_char, sentry, of_string, good.
  cbn [eofbit failbit skipws rdbuf negb andb].
  rewrite (skip_space_all _ W). reflexivity.
Qed.

Lemma read_loop_stop k capacity inFile newBook a i :
  to_bool (fst (Book_extract inFile newBook)) && (i <? capacity)%N = false ->
  read_loop (S k) capacity inFile newBook a i = (a, i).
Proof.
  intros H. cbn [read_loop].
  destruct (Book_extract inFile newBook) as [s' b']. cbn [fst] in H.
  now rewrite H.
Qed.

Lemma last_cons (b : Book) (bs : list Book) (d : Book) :
  last (b :: bs) d = last bs b.
Proof.
  revert b d. induction bs as [|x xs IH]; intros b d; [reflexivity|].
  change (last (b :: x :: xs) d) with (last (x :: xs) d).
  now rewrite !IH.
Qed.

(** The loop over a run of Books that parse: one iteration each, the
    Books copied into the array in order. *)
Lemma read_loop_reads st books st' :
  reads st books st' ->
  forall fuel capacity newBook a i,
    (i + N.of_nat (List.length books) <= capacity)%N ->
    (i + N.of_nat (List.length books) < 2 ^ 32)%N ->
    read_loop (List.length books + fuel) capacity st newBook a i
    = read_loop fuel capacity st' (last books newBook)
                (store_books a i books)
                (i + N.of_nat (List.length books)).
Proof.
  induction 1 as [st|st st1 st' b bs E T R IH];
    intros fuel capacity newBook a i Hc Hw.
  - cbn [List.length Nat.add last store_books]. now rewrite N.add_0_r.
  - cbn [List.length] in *. cbn [Nat.add read_loop].
    rewrite (E newBook).
    assert (L : (i <? capacity)%N = true) by (apply N.ltb_lt; lia).
    rewrite T, L. cbn [andb].
    rewrite wrap_unsigned_small by lia.
    rewrite IH by lia. cbn [store_books].
    rewrite last_cons. f_equal. lia.
Qed.

Lemma store_books_after a c books j :
  (c + N.of_nat (List.length books) <= j)%N ->
  array_get (store_books a c books) j = array_get a j.
Proof.
  revert a c; induction books as [|b bs IH]; intros a c H;
    cbn [store_books List.length] in *; [reflexivity|].
  rewrite IH by lia. apply array_get_set_neq. lia.
Qed.

End ReadInFile.

(** X1. Loading from a file that cannot be opened, or that holds nothing
    but white space, gives a list of size 0 whatever the list held before;
    the capacity and every slot of the array are as they were. *)
Theorem readInFile_nothing_to_read (file : option string) (l : BookList) :
  match file with
  | None => True
  | Some text => all_space text = true
  end ->
  readInFile file l = mkBookList (_capacity l) (_bookArray l) 0.
Proof.
  intros H. unfold readInFile.
  rewrite read_loop_stop; [reflexivity|].
  apply andb_false_iff. left.
  destruct file as [text|]; cbn [ifstream].
  - now apply Book_extract_blank.
  - now apply Book_extract_sticky.
Qed.

Lemma readInFile_nothing_to_read_witness :
  readInFile None Examples.near_list
  = mkBookList (_capacity Examples.near_list)
               (_bookArray Examples.near_list) 0.
Proof. apply (readInFile_nothing_to_read None Examples.near_list). exact I. Defined.

(** Loading after a run of Books that parse. *)
Lemma readInFile_reads_aux (file : option string) (books : list Book)
        (st' : istream) (l : BookList) :
  reads (ifstream file) books st' ->
  Stream.to_bool (fst (Book_extract st' default_Book)) = false
  \/ N.of_nat (List.length books) = _capacity l ->
  (N.of_nat (List.length books) <= _capacity l)%N ->
  (N.of_nat (List.length books) < 2 ^ 32)%N ->
  List.length (_bookArray l) = N.to_nat (_capacity l) ->
  let after := readInFile file l in
  size after = N.of_nat (List.length books) /\
  _capacity after = _capacity l /\
  (forall j, j < List.length books ->
             at_index after (N.of_nat j) = nth j books default_Book) /\
  (forall j, (N.of_nat (List.length books) <= j)%N ->
             at_index after j = at_index l j).
Proof.
  intros R Stop Hc Hw La after.
  pose proof (reads_avail _ _ _ R) as Av.
  assert (X : read_loop (S (String.length (rdbuf (ifstream file))))
                        (_capacity l) (ifstream file) default_Book
                        (_bookArray l) 0
              = (store_books (_bookArray l) 0 books,
                 N.of_nat (List.length books))).
  { replace (S (String.length (rdbuf (ifstream file))))
      with (List.length books
            + S (avail (ifstream file) - List.length books))
      by (unfold avail in *; lia).
    rewrite (read_loop_reads _ _ _ R) by lia.
    rewrite N.add_0_l. apply read_loop_stop.
    apply andb_false_iff. destruct Stop as [F|F].
    - left.
      now rewrite (Book_extract_stream _ (last books default_Book)
                     default_Book).
    - right. rewrite F. apply N.ltb_irrefl. }
  unfold after, readInFile. rewrite X.
  unfold size, at_index. cbn [_books_array_size _bookArray _capacity].
  split; [reflexivity|]. split; [reflexivity|]. split.
  - intros j Hj. apply (store_books_get (_bookArray l) 0 books j); lia.
  - intros j Hj. apply store_books_after. lia.
Qed.

(** X2. When [books] parse one after the other from the file and then
    either the next read fails or the list is full, loading sets the size
    to the number of Books read, whatever it was before; the Books are at
    positions 0, 1, ... in the order of the file, the slots behind them
    and the capacity are unchanged. *)
Theorem readInFile_reads (file : option string) (books : list Book)
        (st' : istream) (l : BookList) :
  reads (ifstream file) books st' ->
  Stream.to_bool (fst (Book_extract st' default_Book)) = false
  \/ N.of_nat (List.length books) = _capacity l ->
  (N.of_nat (List.length books) <= _capacity l)%N ->
  (N.of_nat (List.length books) < 2 ^ 32)%N ->
  List.length (_bookArray l) = N.to_nat (_capacity l) ->
  let after := readInFile file l in
  size after = N.of_nat (List.length books) /\
  _capacity after = _capacity l /\
  (forall j, j < List.length books ->
             at_index after (N.of_nat j) = nth j books default_Book) /\
  (forall j, (N.of_nat (List.length books) <= j)%N ->
             at_index after j = at_index l j).
Proof. exact (readInFile_reads_aux file books st' l). Qed.

Lemma readInFile_reads_witness :
  let after := readInFile (Some Examples.three_records) (BookList_new 2) in
  size after = 2%N /\
  _capacity after = 2%N /\
  (forall j, j < 2 ->
             at_index after (N.of_nat j)
             = nth j [Examples.book1; Examples.book2] default_Book) /\
  (forall j, (2 <= j)%N -> at_index after j = at_index (BookList_new 2) j).
Proof.
  apply (readInFile_reads (Some Examples.three_records)
           [Examples.book1; Examples.book2] _ (BookList_new 2)
           reads_two_records).
  - right. reflexivity.
  - cbn. lia.
  - reflexivity.
  - reflexivity.
Defined.

(* ================================================================== *)
(** * Appending: [+=] *)
(* ================================================================== *)

Section Append.

(** The loop of [+=] for another list: it copies
    [min (capacity - sz) (rhs.size() - i)] Books, in order. *)
Lemma append_loop_copies fuel capacity rhs :
  forall a sz i,
    (capacity < 2 ^ 64)%N -> (size rhs < 2 ^ 64)%N ->
    (sz <= capacity)%N -> (i <= size rhs)%N ->
    List.length a = N.to_nat capacity ->
    N.to_nat (size rhs - i) <= fuel ->
    let r := append_loop fuel capacity a sz rhs i in
    snd r = (sz + N.min (capacity - sz) (size rhs - i))%N /\
    (forall j, (j < sz)%N -> array_get (fst r) j = array_get a j) /\
    (forall j, (sz + j < snd r)%N ->
               array_get (fst r) (sz + j) = at_index rhs (i + j)) /\
    (forall j, (snd r <= j)%N -> array_get (fst r) j = array_get a j).
Proof.
  induction fuel as [|f IH]; intros a sz i Hc Hr Hs Hi La Hf;
    cbn [append_loop].
  - assert (i = size rhs) by lia. subst i. cbn [fst snd].
    split; [lia|]. split; [reflexivity|]. split; [intros j Hj; lia|].
    reflexivity.
  - destruct ((sz <? capacity)%N && (i <? size rhs)%N) eqn:C.
    + apply andb_true_iff in C. destruct C as [C1 C2].
      apply N.ltb_lt in C1, C2.
      rewrite (wrap_size_t_small (sz + 1)), (wrap_size_t_small (i + 1))
        by lia.
      destruct (IH (array_set a sz (at_index rhs i)) (sz + 1)%N (i + 1)%N)
        as (R1 & R2 & R3 & R4);
        try lia; [rewrite array_set_length; exact La|].
      set (r := append_loop f capacity (array_set a sz (at_index rhs i))
                            (sz + 1) rhs (i + 1)) in *.
      split; [lia|]. split; [|split].
      * intros j Hj. rewrite R2 by lia. apply array_get_set_neq. lia.
      * intros j Hj. destruct (N.eq_dec j 0) as [->|Hne].
        -- rewrite !N.add_0_r. rewrite R2 by lia.
           apply array_get_set_eq. lia.
        -- replace (sz + j)%N with (sz + 1 + (j - 1))%N by lia.
           rewrite R3 by lia. f_equal. lia.
      * intros j Hj. rewrite R4 by lia. apply array_get_set_neq. lia.
    + cbn [fst snd]. apply andb_false_iff in C.
      split; [destruct C as [C|C]; apply N.ltb_ge in C; lia|].
      split; [reflexivity|]. split; [intros j Hj; lia|]. reflexivity.
Qed.

(** The loop of [l += l]: the distance between the write index and the
    read index stays the size the list had, so the reads run over what the
    loop itself wrote, until the list is full. *)
Lemma append_self_loop_fills fuel capacity (orig : N -> Book) (s0 : N) :
  forall a sz i,
    (0 < s0)%N -> (capacity < 2 ^ 64)%N ->
    (i + s0 = sz)%N -> (sz <= capacity)%N ->
    List.length a = N.to_nat capacity ->
    (forall k, (k < sz)%N -> array_get a k = orig (k mod s0)%N) ->
    N.to_nat (capacity - sz) <= fuel ->
    let r := append_self_loop fuel capacity a sz i in
    snd r = capacity /\
    (forall k, (k < capacity)%N -> array_get (fst r) k = orig (k mod s0)%N).
Proof.
  induction fuel as [|f IH]; intros a sz i H0 Hc Hi Hs La Inv Hf;
    cbn [append_self_loop].
  - cbn [fst snd]. split; [lia|]. intros k Hk. apply Inv. lia.
  - destruct ((sz <? capacity)%N && (i <? sz)%N) eqn:C.
    + apply andb_true_iff in C. destruct C as [C1 C2].
      apply N.ltb_lt in C1, C2.
      rewrite (wrap_size_t_small (sz + 1)), (wrap_size_t_small (i + 1))
        by lia.
      apply IH; try lia; [now rewrite array_set_length|].
      intros k Hk. destruct (N.eq_dec k sz) as [->|Hne].
      * rewrite array_get_set_eq by lia. rewrite Inv by lia.
        f_equal. rewrite <- Hi.
        replace (i + s0)%N with (i + 1 * s0)%N by lia.
        now rewrite N.Div0.mod_add.
      * rewrite array_get_set_neq by lia. apply Inv. lia.
    + cbn [fst snd]. apply andb_false_iff in C.
      destruct C as [C|C]; apply N.ltb_ge in C; [|lia].
      split; [lia|]. intros k Hk. apply Inv. lia.
Qed.

End Append.

(** The list after [l += rhs], slot by slot. *)
Lemma plus_assign_appends_in_order_aux (l rhs : BookList) :
  well_formed l -> (size rhs < 2 ^ 64)%N ->
  let after := plus_assign l rhs in
  size after = N.min (_capacity l) (size l + size rhs) /\
  _capacity after = _capacity l /\
  (forall j, (j < size l)%N -> at_index after j = at_index l j) /\
  (forall j, (size l + j < size after)%N ->
             at_index after (size l + j) = at_index rhs j) /\
  (forall j, (size after <= j)%N -> at_index after j = at_index l j).
Proof.
  intros (Hc & La & Hs) Hr after.
  pose proof (append_loop_copies (N.to_nat (size rhs)) (_capacity l) rhs
                (_bookArray l) (_books_array_size l) 0%N Hc Hr Hs)
    as H.
  unfold after, plus_assign, size, at_index in *.
  destruct (append_loop (N.to_nat (_books_array_size rhs)) (_capacity l)
                        (_bookArray l) (_books_array_size l) rhs 0)
    as [a sz].
  cbn [fst snd _books_array_size _bookArray _capacity] in *.
  destruct H as (R1 & R2 & R3 & R4); [lia | exact La | lia |].
  split; [lia|]. split; [reflexivity|]. split; [exact R2|].
  split; [|exact R4].
  intros j Hj. rewrite R3 by exact Hj. now rewrite N.add_0_l.
Qed.

(** X3. [l += rhs] for another list appends the Books of [rhs] in order
    until [rhs] is exhausted or [l] is full, without an error: the size
    becomes [min (capacity, size l + size rhs)], the Books [l] held stay
    where they were, the Book at position [size l + j] is [rhs[j]], and
    the capacity and the slots behind the new size are unchanged. *)
Theorem plus_assign_appends_in_order (l rhs : BookList) :
  well_formed l -> (size rhs < 2 ^ 64)%N ->
  let after := plus_assign l rhs in
  size after = N.min (_capacity l) (size l + size rhs) /\
  _capacity after = _capacity l /\
  (forall j, (j < size l)%N -> at_index after j = at_index l j) /\
  (forall j, (size l + j < size after)%N ->
             at_index after (size l + j) = at_index rhs j) /\
  (forall j, (size after <= j)%N -> at_index after j = at_index l j).
Proof. exact (plus_assign_appends_in_order_aux l rhs). Qed.

Lemma plus_assign_appends_in_order_witness :
  let l := Examples.near_list in
  let after := plus_assign l l in
  well_formed l /\ (size l < 2 ^ 64)%N /\
  size after = N.min (_capacity l) (size l + size l) /\
  _capacity after = _capacity l /\
  (forall j, (j < size l)%N -> at_index after j = at_index l j) /\
  (forall j, (size l + j < size after)%N ->
             at_index after (size l + j) = at_index l j) /\
  (forall j, (size after <= j)%N -> at_index after j = at_index l j).
Proof.
  intros l after.
  assert (W : well_formed l)
    by (repeat split; vm_compute; (reflexivity || discriminate)).
  assert (H : (size l < 2 ^ 64)%N) by (vm_compute; reflexivity).
  split; [exact W|]. split; [exact H|].
  exact (plus_assign_appends_in_order l l W H).
Defined.

(** X4. [l += l] does not append one copy of the list: the loop reads the
    Books it has just written.  A list that is not empty is filled to its
    capacity with its Books repeated in order (position [k] holds the Book
    that was at [k mod size]); an empty list is left as it is. *)
Theorem plus_assign_self_fills (l : BookList) :
  well_formed l ->
  let after := plus_assign_self l in
  _capacity after = _capacity l /\
  ((0 < size l)%N ->
   size after = _capacity l /\
   forall k, (k < _capacity l)%N ->
             at_index after k = at_index l (k mod size l)%N) /\
  (size l = 0%N -> after = l).
Proof.
  intros (Hc & La & Hs) after. unfold after, plus_assign_self.
  split; [|split].
  - destruct (append_self_loop _ _ _ _ _). reflexivity.
  - intros H0.
    pose proof (append_self_loop_fills
                  (N.to_nat (_capacity l - _books_array_size l))
                  (_capacity l) (array_get (_bookArray l))
                  (_books_array_size l) (_bookArray l)
                  (_books_array_size l) 0%N H0 Hc) as H.
    destruct (append_self_loop _ _ _ _ _) as [a sz].
    cbn [fst snd] in H. unfold size, at_index.
    cbn [_books_array_size _bookArray].
    apply H; try lia.
    intros k Hk. now rewrite N.mod_small.
  - unfold size. intros E. rewrite E.
    destruct (N.to_nat (_capacity l - 0)); cbn [append_self_loop].
    + destruct l; cbn in *; now subst.
    + rewrite N.ltb_irrefl, andb_false_r.
      destruct l; cbn in *; now subst.
Qed.

Lemma plus_assign_self_fills_witness :
  let l := Examples.near_list in
  let after := plus_assign_self l in
  well_formed l /\
  _capacity after = _capacity l /\
  ((0 < size l)%N ->
   size after = _capacity l /\
   forall k, (k < _capacity l)%N ->
             at_index after k = at_index l (k mod size l)%N) /\
  (size l = 0%N -> after = l).
Proof.
  intros l after.
  assert (W : well_formed l)
    by (repeat split; vm_compute; (reflexivity || discriminate)).
  split; [exact W | exact (plus_assign_self_fills l W)].
Defined.

(* ================================================================== *)
(** * find after an append *)
(* ================================================================== *)

Section FindAppend.

(** What [find] returns is determined by the first match. *)
Lemma find_unique (l : BookList) (book : Book) (r : N) :
  (size l < 2 ^ 64)%N -> (r <= size l)%N ->
  (forall j, (j < r)%N -> find_match (at_index l j) book = false) ->
  ((r < size l)%N -> find_match (at_index l r) book = true) ->
  find l book = r.
Proof.
  intros Hn Hr Hno Hyes.
  destruct (find_loop_first (N.to_nat (size l)) (_bookArray l) book
              (size l) 0%N Hn) as (R1 & R2 & R3); [lia | lia |].
  fold (find l book) in R1, R2, R3.
  fold (at_index l (find l book)) in R3.
  destruct (N.lt_trichotomy (find l book) r) as [Lt|[E|Gt]];
    [|exact E|].
  - specialize (Hno _ Lt). rewrite R3 in Hno by lia. discriminate.
  - specialize (Hyes ltac:(lia)).
    assert (F : find_match (at_index l r) book = false)
      by (apply R2; lia).
    congruence.
Qed.

Lemma find_facts (l : BookList) (book : Book) :
  (size l < 2 ^ 64)%N ->
  (find l book <= size l)%N /\
  (forall j, (j < find l book)%N ->
             find_match (at_index l j) book = false) /\
  ((find l book < size l)%N ->
   find_match (at_index l (find l book)) book = true).
Proof.
  intros Hn.
  destruct (find_loop_first (N.to_nat (size l)) (_bookArray l) book
              (size l) 0%N Hn) as (R1 & R2 & R3); [lia | lia |].
  fold (find l book) in R1, R2, R3.
  split; [lia|]. split; [|exact R3].
  intros j Hj. apply R2. lia.
Qed.

End FindAppend.

(** X5. Searching after an append.  A Book that [find] locates in [l] is
    located at the same index after [l += rhs]; a Book that is not in [l]
    is located at [size l] plus its index in [rhs] when that Book of [rhs]
    was appended, and is not found (the new size) otherwise. *)
Theorem find_plus_assign (l rhs : BookList) (book : Book) :
  well_formed l -> (size rhs < 2 ^ 64)%N ->
  let after := plus_assign l rhs in
  find after book
  = if (find l book <? size l)%N then find l book
    else if (size l + find rhs book <? size after)%N
         then (size l + find rhs book)%N
         else size after.
Proof.
  intros W Hr after.
  destruct (plus_assign_appends_in_order_aux l rhs W Hr)
    as (S1 & S2 & S3 & S4 & _). fold after in S1, S2, S3, S4.
  destruct W as (Hc & La & Hs).
  assert (Hl : (size l < 2 ^ 64)%N) by (unfold size; lia).
  assert (Ha : (size after < 2 ^ 64)%N) by lia.
  assert (Hle : (size l <= size after)%N) by (unfold size in *; lia).
  destruct (find_facts l book Hl) as (L1 & L2 & L3).
  destruct (find_facts rhs book Hr) as (R1 & R2 & R3).
  destruct (find l book <? size l)%N eqn:C.
  - apply N.ltb_lt in C. apply find_unique; try lia.
    + intros j Hj. rewrite S3 by lia. now apply L2.
    + intros _. rewrite S3 by lia. now apply L3.
  - apply N.ltb_ge in C.
    destruct (size l + find rhs book <? size after)%N eqn:D.
    + apply N.ltb_lt in D. apply find_unique; try lia.
      * intros j Hj. destruct (N.lt_ge_cases j (size l)) as [Lt|Ge].
        -- rewrite S3 by lia. apply L2. lia.
        -- replace j with (size l + (j - size l))%N by lia.
           rewrite S4 by lia. apply R2. lia.
      * intros _. rewrite S4 by lia. apply R3. lia.
    + apply N.ltb_ge in D. apply find_unique; try lia.
      intros j Hj. destruct (N.lt_ge_cases j (size l)) as [Lt|Ge].
      * rewrite S3 by lia. apply L2. lia.
      * replace j with (size l + (j - size l))%N by lia.
        rewrite S4 by lia. apply R2. lia.
Qed.

Lemma find_plus_assign_witness :
  let l := Examples.near_list in
  let after := plus_assign l l in
  well_formed l /\ (size l < 2 ^ 64)%N /\
  find after Examples.near2
  = if (find l Examples.near2 <? size l)%N then find l Examples.near2
    else if (size l + find l Examples.near2 <? size after)%N
         then (size l + find l Examples.near2)%N
         else size after.
Proof.
  intros l after.
  assert (W : well_formed l)
    by (repeat split; vm_compute; (reflexivity || discriminate)).
  assert (H : (size l < 2 ^ 64)%N) by (vm_compute; reflexivity).
  split; [exact W|]. split; [exact H|].
  exact (find_plus_assign l l Examples.near2 W H).
Defined.

(* ================================================================== *)
(** * Writing a BookList *)
(* ================================================================== *)

Section Insert.
Import Stream.

Lemma insert_loop_entries fuel (l : BookList) :
  forall i,
    (_books_array_size l < 2 ^ 32)%N -> (i <= _books_array_size l)%N ->
    N.to_nat (_books_array_size l - i) <= fuel ->
    insert_loop fuel l i
    = insert_entries l i (N.to_nat (_books_array_size l - i)).
Proof.
  induction fuel as [|f IH]; intros i Hw Hi Hf; cbn [insert_loop].
  - replace (N.to_nat (_books_array_size l - i)) with 0 by lia.
    reflexivity.
  - destruct (i <? _books_array_size l)%N eqn:C.
    + apply N.ltb_lt in C.
      replace (N.to_nat (_books_array_size l - i))
        with (S (N.to_nat (_books_array_size l - (i + 1)))) by lia.
      cbn [insert_entries]. rewrite wrap_unsigned_small by lia.
      rewrite IH by lia. reflexivity.
    + apply N.ltb_ge in C.
      replace (N.to_nat (_books_array_size l - i)) with 0 by lia.
      reflexivity.
Qed.

(** Reading a quoted string from a listing: the index label is not
    quoted, so it is taken as a word. *)
Lemma get_quoted_label (x s : string) :
  get_quoted (of_string (str1 newline ++ setw 5 (put_unsigned 0) ++ ":  " ++ x))
             s
  = (of_string ("  " ++ x), "0:"%string).
Proof. reflexivity. Qed.

End Insert.

Section InsertFormat.

Lemma spaces_repeat (n : nat) :
  spaces n = string_of_list_ascii (repeat " "%char n).
Proof.
  induction n as [|n IH]; cbn [spaces repeat string_of_list_ascii];
    [reflexivity|]. now rewrite IH.
Qed.

Lemma insert_entries_fold (l : BookList) (n : nat) :
  forall k : nat,
    insert_entries l (N.of_nat k) n
    = fold_right append EmptyString
        (map (fun i : nat =>
                let digits := NilZero.string_of_uint (N.to_uint (N.of_nat i)) in
                String (ascii_of_nat 10)
                  (string_of_list_ascii
                     (repeat " "%char (5 - String.length digits))
                   ++ digits ++ ":  "
                   ++ Book_insert (at_index l (N.of_nat i))))
             (seq k n)).
Proof.
  induction n as [|n IH]; intros k; cbn [insert_entries seq map fold_right];
    [reflexivity|].
  replace (N.of_nat k + 1)%N with (N.of_nat (S k)) by lia.
  rewrite IH. f_equal.
  unfold insert_entry, setw, put_unsigned, str1. cbn [append].
  rewrite spaces_repeat, append_assoc. reflexivity.
Qed.

End InsertFormat.

(** X6. Writing a list whose size is below 2^32 writes one entry per Book
    of the logical sequence, in index order and nothing else.  The entry
    of index [i] is the line-feed character, the decimal digits of [i]
    with spaces before them up to a width of 5, a colon and two spaces,
    and the Book as [operator<<] on a Book writes it.  A list of size 0
    writes nothing. *)
Theorem BookList_insert_entries (l : BookList) :
  (size l < 2 ^ 32)%N ->
  BookList_insert l
  = fold_right append EmptyString
      (map (fun i : nat =>
              let digits := NilZero.string_of_uint (N.to_uint (N.of_nat i)) in
              String (ascii_of_nat 10)
                (string_of_list_ascii
                   (repeat " "%char (5 - String.length digits))
                 ++ digits ++ ":  "
                 ++ Book_insert (at_index l (N.of_nat i))))
           (seq 0 (N.to_nat (size l)))).
Proof.
  intros H. unfold BookList_insert, size in *.
  rewrite insert_loop_entries by lia. rewrite N.sub_0_r.
  exact (insert_entries_fold l _ 0).
Qed.

Lemma BookList_insert_entries_witness :
  (size Examples.near_list < 2 ^ 32)%N /\
  BookList_insert Examples.near_list = near_listing.
Proof.
  assert (H : (size Examples.near_list < 2 ^ 32)%N)
    by (vm_compute; reflexivity).
  split; [exact H|].
  rewrite (BookList_insert_entries Examples.near_list H).
  vm_compute. reflexivity.
Defined.

(** X7. Reading a Book from the listing that [operator<<] writes for a
    BookList: whatever the list holds, the read either fails and leaves
    the target unchanged, or yields a Book whose isbn is the label of the
    first entry (the index 0 and the colon).  So a list whose first Book
    has another isbn is never read back from its listing: the Book read is
    not the Book written. *)
Theorem Book_extract_of_listing (l : BookList) (target : Book) :
  let r := Book_extract (Stream.of_string (BookList_insert l)) target in
  ((Stream.to_bool (fst r) = false /\ snd r = target) \/
   (Stream.to_bool (fst r) = true /\ _isbn (snd r) = "0:"%string)) /\
  (_isbn (at_index l 0) <> "0:"%string ->
   Stream.to_bool (fst r) = true ->
   snd r <> at_index l 0).
Proof.
  intros r.
  assert (A : (Stream.to_bool (fst r) = false /\ snd r = target) \/
              (Stream.to_bool (fst r) = true /\ _isbn (snd r) = "0:"%string)).
  { unfold r, BookList_insert.
    destruct (N.to_nat (_books_array_size l)) as [|f] eqn:F;
      cbn [insert_loop].
    - left. split; [now apply Book_extract_blank|].
      apply Book_extract_failed. now apply Book_extract_blank.
    - assert (C : (0 <? _books_array_size l)%N = true)
        by (apply N.ltb_lt; lia).
      rewrite C. rewrite Book_extract_fields. cbn [fst snd].
      destruct (Stream.to_bool (fst (f_price (extract_fields _))));
        [right | left; split; reflexivity].
      split; [reflexivity|]. cbn [_isbn].
      unfold extract_fields. cbn [f_isbn]. unfold insert_entry.
      rewrite !append_assoc. rewrite get_quoted_label. reflexivity. }
  split; [exact A|].
  intros Hne T E. destruct A as [[F _]|[_ I]]; [congruence|].
  rewrite E in I. contradiction.
Qed.

Lemma Book_extract_of_listing_witness :
  let l := Examples.near_list in
  let r := Book_extract (Stream.of_string (BookList_insert l)) default_Book in
  _isbn (at_index l 0) <> "0:"%string /\
  ((Stream.to_bool (fst r) = false /\ snd r = default_Book) \/
   (Stream.to_bool (fst r) = true /\ _isbn (snd r) = "0:"%string)).
Proof.
  intros l r. split; [vm_compute; discriminate|].
  exact (proj1 (Book_extract_of_listing l default_Book)).
Defined.

(* ================================================================== *)
(** * Book equality *)
(* ================================================================== *)

Section BookEq.

(** The sign given to a rounding does not change the magnitude. *)
Lemma SFabs_binary_round (m : positive) (e : Z) :
  SFabs (binary_round prec emax true m e)
  = SFabs (binary_round prec emax false m e).
Proof.
  unfold binary_round, binary_round_aux.
  destruct (shl_align m e _) as [mz ez].
  destruct (shr_fexp prec emax (Zpos mz) ez loc_Exact) as [mrs' e'].
  destruct (shr_fexp prec emax _ e' loc_Exact) as [mrs'' e''].
  destruct (shr_m mrs''); [reflexivity| |reflexivity].
  destruct (Z.leb e'' (Z.sub emax prec)); reflexivity.
Qed.

Lemma SFabs_binary_normalize_opp (m e : Z) :
  SFabs (binary_normalize prec emax (- m) e false)
  = SFabs (binary_normalize prec emax m e false).
Proof.
  destruct m as [|p|p]; cbn [Z.opp binary_normalize]; [reflexivity| |].
  - apply SFabs_binary_round.
  - symmetry. apply SFabs_binary_round.
Qed.

(** [|x - y| = |y - x|] on binary64. *)
Lemma SFabs_SFsub_comm (x y : spec_float) :
  SFabs (SFsub prec emax x y) = SFabs (SFsub prec emax y x).
Proof.
  destruct x as [sx|sx| |sx mx ex], y as [sy|sy| |sy my ey];
    try reflexivity;
    try (destruct sx, sy; reflexivity);
    try (destruct sx; reflexivity);
    try (destruct sy; reflexivity).
  cbn [SFsub]. rewrite (Z.min_comm ey ex).
  rewrite <- SFabs_binary_normalize_opp. f_equal. f_equal. lia.
Qed.

Lemma abs_sub_comm (x y : float) : abs (x - y) = abs (y - x).
Proof.
  apply Prim2SF_inj. rewrite !abs_spec, !sub_spec.
  apply SFabs_SFsub_comm.
Qed.

(** A finite number minus itself is zero. *)
Lemma sub_diag_finite (x : float) (s : bool) (m : positive) (e : Z) :
  Prim2SF x = S754_finite s m e -> (x - x)%float = zero.
Proof.
  intros E. apply Prim2SF_inj. rewrite sub_spec, E.
  unfold SF64sub. cbn [SFsub]. rewrite Z.sub_diag. reflexivity.
Qed.

Lemma abs_sub_diag (x : float) :
  (abs (x - x) <? EPSILON)%float = true
  <-> x <> nan /\ x <> infinity /\ x <> neg_infinity.
Proof.
  pose proof (SF2Prim_Prim2SF x) as P.
  destruct (Prim2SF x) as [s|s| |s m e] eqn:E.
  - cbn [SF2Prim] in P. destruct s; subst x;
      (split; [intros _; repeat split; intros H; vm_compute in H;
               discriminate
              | intros _; vm_compute; reflexivity]).
  - cbn [SF2Prim] in P. destruct s; subst x;
      (split; [intros H; vm_compute in H; discriminate
              | intros (_ & H1 & H2); congruence]).
  - cbn [SF2Prim] in P. subst x.
    split; [intros H; vm_compute in H; discriminate
           | intros (H & _); congruence].
  - rewrite (sub_diag_finite x s m e E).
    split; [intros _ | intros _; vm_compute; reflexivity].
    repeat split; intros H; rewrite H in E; vm_compute in E; discriminate.
Qed.

End BookEq.

(** X8. Book's [==] is symmetric; a Book is equal to itself exactly when
    its price is a number (not NaN) and not infinite; and [==] is not
    transitive: prices that are pairwise closer than EPSILON along a chain
    can be further apart than EPSILON at its ends. *)
Theorem Book_eq_relation :
  (forall lhs rhs : Book, Book_eq lhs rhs = Book_eq rhs lhs) /\
  (forall b : Book,
      Book_eq b b = true
      <-> _price b <> nan /\ _price b <> infinity
          /\ _price b <> neg_infinity) /\
  (exists p1 p2 p3 : float,
      forall isbn title author : string,
        Book_eq (mkBook isbn title author p1) (mkBook isbn title author p2)
        = true /\
        Book_eq (mkBook isbn title author p2) (mkBook isbn title author p3)
        = true /\
        Book_eq (mkBook isbn title author p1) (mkBook isbn title author p3)
        = false).
Proof.
  split; [|split].
  - intros lhs rhs. unfold Book_eq.
    rewrite (String.eqb_sym (_isbn lhs)), (String.eqb_sym (_title lhs)),
      (String.eqb_sym (_author lhs)), (abs_sub_comm (_price lhs)).
    reflexivity.
  - intros b. unfold Book_eq. rewrite !String.eqb_refl. cbn [andb].
    apply abs_sub_diag.
  - exists one, 0x1.0004p+0%float, 0x1.0008p+0%float.
    intros isbn title author. unfold Book_eq. cbn [_isbn _title _author _price].
    rewrite !String.eqb_refl. cbn [andb].
    repeat split; vm_compute; reflexivity.
Qed.

(* ================================================================== *)
(** * Writing Books to a file and loading them *)
(* ================================================================== *)

Section FileRoundTrip.
Import Stream.

(** White space is none of the characters a number is made of. *)
Lemma isspace_not_numeric (c : ascii) :
  isspace c = true ->
  isdigit c = false /\ Num.is_sign c = false /\ (c =? ".")%char = false /\
  (c =? "e")%char = false /\ (c =? "E")%char = false /\
  (c =? "0")%char = false.
Proof.
  destruct c as [[] [] [] [] [] [] [] []]; vm_compute;
    intros H; try discriminate H; repeat split.
Qed.

Lemma extract_digits_followed n (c : ascii) (rest : string) :
  isspace c = true ->
  forall s xtrc fm fd fs x,
    String.length s <= n ->
    Num.extract_digits s xtrc fm fd fs = (x, EmptyString) ->
    Num.extract_digits (s ++ String c rest) xtrc fm fd fs
    = (x, String c rest).
Proof.
  intros W. destruct (isspace_not_numeric c W) as (D & Sg & P & E1 & E2 & _).
  assert (Stop : forall xtrc fm fd fs,
             Num.extract_digits (String c rest) xtrc fm fd fs
             = (xtrc, String c rest)).
  { intros. cbn [Num.extract_digits]. now rewrite D, P, E1, E2. }
  induction n as [|n IH]; intros s xtrc fm fd fs x Hn H.
  - destruct s; [|cbn in Hn; lia]. cbn [append] in *.
    cbn [Num.extract_digits] in H. inversion H; subst. apply Stop.
  - destruct s as [|a s].
    { cbn [append] in *. cbn [Num.extract_digits] in H.
      inversion H; subst. apply Stop. }
    cbn [append Num.extract_digits] in *.
    destruct (isdigit a); [apply IH; [cbn in Hn; lia | exact H]|].
    destruct ((a =? ".")%char && negb fd && negb fs);
      [apply IH; [cbn in Hn; lia | exact H]|].
    destruct (((a =? "e")%char || (a =? "E")%char) && negb fs && fm);
      [|discriminate H].
    destruct s as [|c2 s2].
    + cbn [append]. rewrite Sg. inversion H; subst. apply Stop.
    + cbn [append]. destruct (Num.is_sign c2).
      * apply IH; [cbn in Hn; lia | exact H].
      * apply (IH (String c2 s2)); [cbn in Hn |- *; lia | exact H].
Qed.

Lemma extract_zeros_followed (c : ascii) (rest : string) :
  (c =? "0")%char = false ->
  forall s fm,
    Num.extract_zeros (s ++ String c rest) fm
    = (fst (Num.extract_zeros s fm),
       (snd (Num.extract_zeros s fm) ++ String c rest)%string).
Proof.
  intros Z. induction s as [|a s IH]; intros fm;
    cbn [append Num.extract_zeros].
  - now rewrite Z.
  - destruct (a =? "0")%char; [apply IH | reflexivity].
Qed.

Lemma extract_float_followed (c : ascii) (rest s x : string) :
  isspace c = true ->
  Num.extract_float s = (x, EmptyString) ->
  Num.extract_float (s ++ String c rest) = (x, String c rest).
Proof.
  intros W. destruct (isspace_not_numeric c W) as (_ & Sg & _ & _ & _ & Z).
  unfold Num.extract_float.
  assert (S1 : Num.extract_sign (s ++ String c rest)
               = (fst (Num.extract_sign s),
                  (snd (Num.extract_sign s) ++ String c rest)%string)).
  { destruct s as [|a s]; cbn [append Num.extract_sign];
      [now rewrite Sg|]. destruct (Num.is_sign a); reflexivity. }
  rewrite S1. destruct (Num.extract_sign s) as [sg s1]. cbn [fst snd].
  rewrite (extract_zeros_followed c rest Z).
  destruct (Num.extract_zeros s1 false) as [fm s2]. cbn [fst snd].
  apply (extract_digits_followed (String.length s2)); [exact W | lia].
Qed.

Lemma skip_space_followed (t x : string) (a : ascii) (t1 : string) :
  skip_space t = String a t1 ->
  skip_space (t ++ x) = (String a t1 ++ x)%string.
Proof.
  induction t as [|b t IH]; cbn [skip_space append]; [discriminate|].
  destruct (isspace b); [exact IH|].
  intros E. inversion E; subst. reflexivity.
Qed.

(** A number that is read whole from a text is read the same when white
    space follows the text, and the stream stops at that white space. *)
Lemma get_double_followed (w t rest : string) (c : ascii) (v p' : float) :
  all_space w = true -> isspace c = true ->
  Num.get_double (of_string t) v
  = (mkIstream EmptyString true false true, p') ->
  Num.get_double (of_string (w ++ t ++ String c rest)) v
  = (of_string (String c rest), p').
Proof.
  intros W C H. rewrite (get_double_skip w _ v W).
  unfold Num.get_double, sentry, of_string, good in H |- *.
  cbn [eofbit failbit skipws rdbuf negb andb] in H |- *.
  destruct (skip_space t) as [|a t1] eqn:K.
  - cbn in H. discriminate H.
  - rewrite (skip_space_followed _ _ _ _ K). cbn [append].
    unfold with_buf, setstate in H |- *.
    cbn [rdbuf eofbit failbit skipws orb] in H |- *.
    destruct (Num.extract_float (String a t1)) as [xtrc r0] eqn:X.
    destruct (Num.convert_to_v xtrc) as [v' failed] eqn:V.
    injection H as E1 E2 E3 E4. subst r0 failed v'.
    change (String a (t1 ++ String c rest))
      with (String a t1 ++ String c rest)%string.
    rewrite (extract_float_followed c rest _ _ C X), V.
    reflexivity.
Qed.

(** The text of a Book followed by white space is parsed as the Book
    reread, and the stream stops at that white space. *)
Lemma Book_extract_line (w rest : string) (c : ascii) (book target : Book) :
  all_space w = true -> isspace c = true ->
  price_reads_back (_price book) (_price (reread book)) ->
  Book_extract (of_string (w ++ Book_insert book ++ String c rest)) target
  = (of_string (String c rest), reread book).
Proof.
  intros W C P.
  pose proof (Book_extract_record w (_isbn book) "  " (_title book) "  "
                (_author book)
                ("  " ++ Fmt.put_double (_price book) ++ String c rest)
                comma comma comma target W eq_refl eq_refl eq_refl eq_refl
                eq_refl) as R.
  rewrite (get_double_followed "  " _ rest c zero _ eq_refl C P) in R.
  cbn [fst snd] in R.
  change (to_bool (of_string (String c rest))) with true in R.
  cbv iota in R.
  etransitivity; [|exact R].
  do 2 f_equal.
  unfold Book_insert, get_isbn, get_title, get_author, get_price.
  rewrite !append_assoc. reflexivity.
Qed.

(** The lines written for a list of Books parse one after the other, and
    leave white space only. *)
Lemma reads_write_lines (books : list Book) :
  Forall rereadable books ->
  forall w, all_space w = true ->
  exists w', all_space w' = true /\
             reads (of_string (w ++ write_lines books)) (map reread books)
                   (of_string w').
Proof.
  induction 1 as [|b bs [P _] _ IH]; intros w W.
  - exists w. split; [exact W|]. cbn [write_lines map].
    rewrite append_nil_r. apply reads_nil.
  - destruct (IH (str1 newline) eq_refl) as (w' & W' & R).
    exists w'. split; [exact W'|]. cbn [write_lines map].
    eapply reads_cons; [| |exact R].
    + intros target. apply Book_extract_line; [exact W | reflexivity | exact P].
    + reflexivity.
Qed.

End FileRoundTrip.

(** X9. A file written with [operator<<] on a Book, one Book per line, is
    loaded back by [readInFile]: when every Book is rereadable (its price
    survives the default rendering to within EPSILON) and the Books fit
    the capacity, the list has as many Books as were written, in the same
    order, each equal under Book's [==] to the Book written and with
    exactly the same three strings. *)
Theorem readInFile_write_lines (books : list Book) (l : BookList) :
  Forall rereadable books ->
  (N.of_nat (List.length books) <= _capacity l)%N ->
  (N.of_nat (List.length books) < 2 ^ 32)%N ->
  List.length (_bookArray l) = N.to_nat (_capacity l) ->
  let after := readInFile (Some (write_lines books)) l in
  size after = N.of_nat (List.length books) /\
  (forall j, j < List.length books ->
             at_index after (N.of_nat j) = reread (nth j books default_Book)
             /\ Book_eq (at_index after (N.of_nat j))
                        (nth j books default_Book) = true).
Proof.
  intros F Hc Hw La after.
  destruct (reads_write_lines books F EmptyString eq_refl)
    as (w' & W' & R).
  destruct (readInFile_reads_aux (Some (write_lines books)) (map reread books)
              (Stream.of_string w') l R) as (S1 & _ & S3 & _);
    rewrite ?length_map; try assumption.
  { left. now apply Book_extract_blank. }
  fold after in S1, S3. rewrite length_map in S1, S3.
  split; [exact S1|]. intros j Hj.
  rewrite (S3 j Hj).
  assert (E : nth j (map reread books) default_Book
              = reread (nth j books default_Book)).
  { rewrite (nth_indep _ default_Book (reread default_Book))
      by (rewrite length_map; exact Hj).
    apply map_nth. }
  rewrite E. split; [reflexivity|].
  assert (Q : rereadable (nth j books default_Book)).
  { rewrite Forall_forall in F. apply F. now apply nth_In. }
  destruct Q as [_ Q]. unfold Book_eq, reread at 1 2 3.
  cbn [_isbn _title _author]. rewrite !String.eqb_refl. cbn [andb].
  exact Q.
Qed.

Lemma readInFile_write_lines_witness :
  let books := [Examples.keats; Examples.book1] in
  let after := readInFile (Some (write_lines books)) (BookList_new 3) in
  Forall rereadable books /\
  size after = 2%N /\
  (forall j, j < 2 ->
             at_index after (N.of_nat j) = reread (nth j books default_Book)
             /\ Book_eq (at_index after (N.of_nat j))
                        (nth j books default_Book) = true).
Proof.
  intros books after.
  assert (F : Forall rereadable books).
  { repeat constructor; vm_compute; reflexivity. }
  split; [exact F|].
  apply (readInFile_write_lines books (BookList_new 3) F);
    [cbn; lia | reflexivity | reflexivity].
Defined.

(* ================================================================== *)
(** * parse-bulk and Book parse: further properties *)
(* ================================================================== *)

(** X10. parse-bulk below the capacity stores what it reads in order, and
    one entry more: when [books] parse one after the other from a usable
    stream, the next read fails and the list has more than
    [length books + 1] slots, the Books are at positions 0, 1, ... in the
    order of the stream, the position behind them holds what the Book
    variable was left with, and the size is [length books + 1]. *)
Theorem BookList_extract_stores_in_order (moved_from : Book -> Book)
        (stream : istream) (books : list Book) (st' : istream)
        (l : BookList) :
  reads stream books st' ->
  Stream.to_bool stream = true ->
  Stream.to_bool (fst (Book_extract st' default_Book)) = false ->
  List.length (_bookArray l) = N.to_nat (_capacity l) ->
  (N.of_nat (List.length books) + 1 < _capacity l)%N ->
  (N.of_nat (List.length books) + 1 < 2 ^ 32)%N ->
  let after := snd (BookList_extract moved_from stream l) in
  size after = (N.of_nat (List.length books) + 1)%N /\
  (forall j, j < List.length books ->
             at_index after (N.of_nat j) = nth j books default_Book) /\
  at_index after (N.of_nat (List.length books))
  = book_after moved_from default_Book books.
Proof.
  exact (BookList_extract_reads_then_fails moved_from stream books st' l).
Qed.

Lemma BookList_extract_stores_in_order_witness :
  let stream := Stream.of_string Examples.second_malformed in
  let after := snd (BookList_extract (fun b => b) stream (BookList_new 3)) in
  size after = 2%N /\
  (forall j, j < 1 ->
             at_index after (N.of_nat j)
             = nth j [Examples.book1] default_Book) /\
  at_index after 1 = Examples.book1.
Proof.
  intros stream.
  apply (BookList_extract_stores_in_order (fun b => b) stream
           [Examples.book1]
           (Stream.of_string (Examples.nl ++ Examples.unterminated))
           (BookList_new 3)).
  - eapply reads_cons;
      [intros target; vm_compute; reflexivity | reflexivity | apply reads_nil].
  - reflexivity.
  - vm_compute. reflexivity.
  - reflexivity.
  - cbn. lia.
  - reflexivity.
Defined.

(** X11. parse-bulk up to the capacity: when as many Books parse from the
    stream as the list has slots (fewer than 2^32), they are stored in
    order, the stream is left right behind the last of them (what follows
    is not read), and the logical size keeps the value it had. *)
Theorem BookList_extract_fills_to_capacity (moved_from : Book -> Book)
        (stream : istream) (books : list Book) (st' : istream)
        (l : BookList) :
  reads stream books st' ->
  List.length (_bookArray l) = N.to_nat (_capacity l) ->
  N.of_nat (List.length books) = _capacity l ->
  (_capacity l < 2 ^ 32)%N ->
  let r := BookList_extract moved_from stream l in
  fst r = st' /\
  size (snd r) = size l /\
  (forall j, j < List.length books ->
             at_index (snd r) (N.of_nat j) = nth j books default_Book).
Proof.
  exact (BookList_extract_reads_to_capacity moved_from stream books st' l).
Qed.

Lemma BookList_extract_fills_to_capacity_witness :
  let stream := Stream.of_string Examples.three_records in
  let r := BookList_extract (fun b => b) stream (BookList_new 2) in
  fst r = Stream.of_string (Examples.nl ++ Examples.record3 ++ Examples.nl) /\
  size (snd r) = size (BookList_new 2) /\
  (forall j, j < 2 ->
             at_index (snd r) (N.of_nat j)
             = nth j [Examples.book1; Examples.book2] default_Book).
Proof.
  intros stream.
  apply (BookList_extract_fills_to_capacity (fun b => b) stream
           [Examples.book1; Examples.book2] _ (BookList_new 2)
           reads_two_records);
    reflexivity.
Defined.

(** X12. A Book parse that succeeds has taken input: the stream holds
    strictly fewer characters than before.  No Book is ever parsed from
    nothing, which is what ends the reading loops. *)
Theorem Book_extract_takes_input (stream : istream) (book : Book) :
  Stream.to_bool (fst (Book_extract stream book)) = true ->
  String.length (rdbuf (fst (Book_extract stream book)))
  < String.length (rdbuf stream).
Proof. exact (Book_extract_consumes stream book). Qed.

Lemma Book_extract_takes_input_witness :
  let stream := Stream.of_string Examples.record1 in
  String.length (rdbuf (fst (Book_extract stream default_Book)))
  < String.length (rdbuf stream).
Proof.
  intros stream.
  apply (Book_extract_takes_input stream default_Book).
  vm_compute. reflexivity.
Defined.
